(** * cbadc: the digital estimation filter

    A shallow embedding of the batch recursion engine ([Filter],
    [C_Digital_Estimator]) and of the pull-based streaming adapter
    ([DigitalEstimator.__init__], [DigitalEstimator.__next__]).

    The adapter is translated from the Python class [DigitalEstimator].
    Of the engine only the Cython declarations ([filter.pxd]) are
    available, so its operations are modelled from the specification and
    marked as such. *)

From Stdlib Require Import String.
From Stdlib Require Import List ZArith Lia Bool Arith.
Import ListNotations.
Open Scope list_scope.

Set Implicit Arguments.

(** ** Exceptions *)

(** The exceptions that reach a caller of the estimator.  [Raised msg] is
    the outcome of the statement [raise "msg"] of [__init__]; [msg]
    records which statement it was.  (Python 3 answers the raise of a
    string with a [TypeError], so a caller sees that the call failed but
    not the text.)  [StopIteration] is Python's end-of-sequence signal;
    [BufferUnderrunError] is the engine's failure on a window that is not
    full. *)
Inductive exn : Type :=
| Raised (msg : string)
| StopIteration
| BufferUnderrunError.

(** The failures of a constructor call on an invalid configuration are
    the outcomes of the [raise] statements of [__init__]. *)
Definition ConfigurationError (e : exn) : bool :=
  match e with
  | Raised _ => true
  | _ => false
  end.

(** ** Dense linear algebra over an abstract scalar type *)

Section Scalars.

(** The scalar type of the filter ([double] in the declarations) with
    its zero, addition and multiplication, and the cast of a [char]
    control bit to a scalar.  No algebraic law is assumed here. *)
Variable R : Type.
Variable zero : R.
Variable add mul : R -> R -> R.
Variable of_char : Z -> R.

Definition vec : Type := list R.
Definition matrix : Type := list vec.

(** One control sample: [char [:] s], a vector of M decisions. *)
Definition sample : Type := list Z.

Definition zeros (n : nat) : vec := repeat zero n.

Definition dot (r v : vec) : R :=
  fold_right (fun p acc => add (mul (fst p) (snd p)) acc) zero (combine r v).

Definition mat_vec (A : matrix) (v : vec) : vec :=
  map (fun r => dot r v) A.

Definition vec_add (u v : vec) : vec :=
  map (fun p => add (fst p) (snd p)) (combine u v).

Definition cast (s : sample) : vec := map of_char s.

(** ** The batch recursion engine *)

(** The fields follow [cdef class Filter]: the five coefficient
    matrices, the window buffer [_control_signal], the block of
    resolved output samples [_estimate], the sizes, and the carried
    forward state.  [_K3] and [_control_signal_in_buffer] are derived
    from the other fields. *)
Record Filter : Type := mkFilter {
  _Af : matrix;
  _Ab : matrix;
  _Bf : matrix;
  _Bb : matrix;
  _WT : matrix;
  _control_signal : list sample;
  _estimate : list vec;
  _K1 : nat;
  _K2 : nat;
  _N : nat;
  _M : nat;
  _L : nat;
  _mf : vec
}.

Definition _K3 (f : Filter) : nat := _K1 f + _K2 f.

Definition _control_signal_in_buffer (f : Filter) : nat :=
  length (_control_signal f).

Definition batch_size (f : Filter) : nat := _K1 f.
Definition lookahead (f : Filter) : nat := _K2 f.

Definition set_control_signal (f : Filter) (b : list sample) : Filter :=
  mkFilter (_Af f) (_Ab f) (_Bf f) (_Bb f) (_WT f) b (_estimate f)
           (_K1 f) (_K2 f) (_N f) (_M f) (_L f) (_mf f).

Definition set_estimate (f : Filter) (e : list vec) : Filter :=
  mkFilter (_Af f) (_Ab f) (_Bf f) (_Bb f) (_WT f) (_control_signal f) e
           (_K1 f) (_K2 f) (_N f) (_M f) (_L f) (_mf f).

(** Modelled from the spec: the body of [Filter.input] is missing.
    It appends one control sample to the window buffer. *)
Definition input (f : Filter) (s : sample) : Filter :=
  set_control_signal f (_control_signal f ++ [s]).

(** Modelled from the spec: the body of [C_Digital_Estimator.full] is
    missing.  The window is full once it has reached K1+K2 samples. *)
Definition full (f : Filter) : bool :=
  _K3 f <=? _control_signal_in_buffer f.

(** Modelled from the spec: the body of [C_Digital_Estimator.empty] is
    missing.  The engine is empty when no resolved output sample is
    buffered. *)
Definition empty (f : Filter) : bool :=
  match _estimate f with [] => true | _ :: _ => false end.

(** Modelled from the spec: the body of [C_Digital_Estimator.output]
    is missing.  It returns the oldest buffered output sample and
    consumes it. *)
Definition output (f : Filter) : vec * Filter :=
  (hd [] (_estimate f), set_estimate f (tl (_estimate f))).

(** Step 1 of the batch algorithm, as a loop over the window that
    carries the forward state: the result lists mf_1, mf_2, ... *)
Fixpoint forward_pass (Af Bf : matrix) (mf : vec) (ss : list sample)
  : list vec :=
  match ss with
  | [] => []
  | s :: ss' =>
      let mf' := vec_add (mat_vec Af mf) (mat_vec Bf (cast s)) in
      mf' :: forward_pass Af Bf mf' ss'
  end.

(** Step 2, running from the far end of the window, where the
    backward state is [mb0]: the result lists mb_1, mb_2, ... *)
Fixpoint backward_pass (Ab Bb : matrix) (mb0 : vec) (ss : list sample)
  : list vec :=
  match ss with
  | [] => []
  | s :: ss' =>
      let rest := backward_pass Ab Bb mb0 ss' in
      vec_add (mat_vec Ab (hd mb0 rest)) (mat_vec Bb (cast s)) :: rest
  end.

(** Step 3: the output sample of one index. *)
Definition combine_states (WT : matrix) (p : vec * vec) : vec :=
  mat_vec WT (vec_add (fst p) (snd p)).

(** Modelled from the spec: the body of [Filter.compute_batch] is
    missing.  The five steps of the batch algorithm; a window that
    does not hold exactly K1+K2 samples is a [BufferUnderrunError] and
    leaves the engine as it was. *)
Definition compute_batch (f : Filter) : (exn + unit) * Filter :=
  if negb (_control_signal_in_buffer f =? _K3 f) then
    (inl BufferUnderrunError, f)
  else
    let mfs := forward_pass (_Af f) (_Bf f) (_mf f) (_control_signal f) in
    let mbs := backward_pass (_Ab f) (_Bb f) (zeros (_N f))
                             (_control_signal f) in
    let us := map (combine_states (_WT f))
                  (firstn (_K1 f) (combine mfs mbs)) in
    (inr tt,
     mkFilter (_Af f) (_Ab f) (_Bf f) (_Bb f) (_WT f)
              (skipn (_K1 f) (_control_signal f))
              us
              (_K1 f) (_K2 f) (_N f) (_M f) (_L f)
              (last (firstn (_K1 f) mfs) (_mf f))).

(** *** The recursions of the batch algorithm, by index *)

(** The i-th sample of a window, counted from 1, cast to scalars. *)
Definition s_at (ss : list sample) (i : nat) : vec :=
  cast (nth (i - 1) ss []).

(** mf_0 is the carried state, mf_i = Af mf_(i-1) + Bf s_i. *)
Fixpoint mf_at (Af Bf : matrix) (mf0 : vec) (ss : list sample) (i : nat)
  : vec :=
  match i with
  | O => mf0
  | S j => vec_add (mat_vec Af (mf_at Af Bf mf0 ss j))
                   (mat_vec Bf (s_at ss (S j)))
  end.

(** The backward state [d] steps before the terminal condition of a
    window of [n] samples: that is mb_(n+1-d). *)
Fixpoint mb_back (Ab Bb : matrix) (mb0 : vec) (ss : list sample) (d : nat)
  : vec :=
  match d with
  | O => mb0
  | S d' => vec_add (mat_vec Ab (mb_back Ab Bb mb0 ss d'))
                    (mat_vec Bb (s_at ss (length ss - d')))
  end.

Definition mb_at (Ab Bb : matrix) (mb0 : vec) (ss : list sample) (i : nat)
  : vec :=
  mb_back Ab Bb mb0 ss (length ss + 1 - i).

(** ** The streaming adapter *)

(** The upstream control-signal source [self._s], a Python iterator:
    [gen] is the sequence it yields ([None] from the point where it is
    exhausted) and [pos] the number of samples already taken. *)
Record source : Type := mkSource {
  gen : nat -> option sample;
  pos : nat
}.

(** [next(self._s)]: the next sample and the advanced iterator, or
    [StopIteration] once the iterator is exhausted. *)
Definition next (src : source) : exn + sample * source :=
  match gen src (pos src) with
  | Some s => inr (s, mkSource (gen src) (S (pos src)))
  | None => inl StopIteration
  end.

(** The attributes of a [DigitalEstimator] object: those of the
    inherited engine ([_filter], and the counter [_iteration] that
    [__next__] reads), the cap [_size] and the source [_s].  The
    counter is set up by the base constructor; neither
    [DigitalEstimator] nor any operation of the engine as the
    specification describes it writes it, and so none does here: how
    the base class advances it is not known.  With the cap 0 the
    counter plays no part in a pull. *)
Record DigitalEstimator : Type := mkEstimator {
  _filter : Filter;
  _iteration : Z;
  _size : Z;
  _s : source
}.

Definition set_filter (e : DigitalEstimator) (f : Filter)
  : DigitalEstimator :=
  mkEstimator f (_iteration e) (_size e) (_s e).

(** What a constructor call does before it returns: it may compute the
    filter coefficients and it may take samples from the source. *)
Inductive event : Type :=
| ComputeFilterCoefficients
| ConsumeSample.

(** The analog system, the digital control and the constructor of the
    base class, [C_Digital_Estimator.__init__], which computes the
    filter coefficients and sets up the engine and its counter.  Its
    body is missing and it is taken as a parameter. *)
Variable AnalogSystem DigitalControl : Type.
Variable super_init :
  AnalogSystem -> DigitalControl -> R -> Z -> Z -> exn + Filter * Z.

(** The defaults of the optional arguments of [__init__]. *)
Definition default_K2 : Z := 0.
Definition default_stop_after_number_of_iterations : Z := 0.

(** [DigitalEstimator.__init__]: the three checks in the order of the
    source, then the call of the base constructor.  The result comes
    with the events that happened up to the return or the raise. *)
Definition __init__ (controlSignalSequence : source)
    (analogSystem : AnalogSystem) (digitalControl : DigitalControl)
    (eta2 : R) (K1 K2 stop_after_number_of_iterations : Z)
  : (exn + DigitalEstimator) * list event :=
  if (stop_after_number_of_iterations <? 0)%Z then
    (inl (Raised "stop_after_number_of_iterations must be non negative"), [])
  else if (K1 <? 1)%Z then
    (inl (Raised "K1 must be a positive integer"), [])
  else if (K2 <? 0)%Z then
    (inl (Raised "K2 must be a non negative integer"), [])
  else
    match super_init analogSystem digitalControl eta2 K1 K2 with
    | inl e => (inl e, [ComputeFilterCoefficients])
    | inr (f, it) =>
        (inr (mkEstimator f it stop_after_number_of_iterations
                          controlSignalSequence),
         [ComputeFilterCoefficients])
    end.

(** The test [self._size and self._size < self._iteration]. *)
Definition cap_exceeded (e : DigitalEstimator) : bool :=
  negb (_size e =? 0)%Z && (_size e <? _iteration e)%Z.

(** The loop [while(not self.full()): self.input(next(self._s))].
    Every iteration takes one unit of [fuel]; [None] is a loop that
    has not finished within the fuel. *)
Fixpoint fill_window (fuel : nat) (e : DigitalEstimator)
  : option ((exn + unit) * DigitalEstimator) :=
  match fuel with
  | O => None
  | S fuel' =>
      if negb (full (_filter e)) then
        match next (_s e) with
        | inl x => Some (inl x, e)
        | inr (s, src') =>
            fill_window fuel'
              (mkEstimator (input (_filter e) s) (_iteration e) (_size e)
                           src')
        end
      else Some (inr tt, e)
  end.

(** [DigitalEstimator.__next__].  Every call, the recursive one
    included, takes one unit of [fuel], and so does every iteration of
    the loop. *)
Fixpoint __next__ (fuel : nat) (e : DigitalEstimator)
  : option ((exn + vec) * DigitalEstimator) :=
  match fuel with
  | O => None
  | S fuel' =>
      if cap_exceeded e then Some (inl StopIteration, e)
      else if negb (empty (_filter e)) then
        let (u, f') := output (_filter e) in
        Some (inr u, set_filter e f')
      else
        match fill_window fuel' e with
        | None => None
        | Some (inl x, e') => Some (inl x, e')
        | Some (inr _, e') =>
            match compute_batch (_filter e') with
            | (inl x, f') => Some (inl x, set_filter e' f')
            | (inr _, f') => __next__ fuel' (set_filter e' f')
            end
        end
  end.

(** [n] successive calls of [next] on the estimator by a consumer that
    keeps the outcome of each call, in order. *)
Fixpoint pulls (fuel n : nat) (e : DigitalEstimator)
  : option (list (exn + vec) * DigitalEstimator) :=
  match n with
  | O => Some ([], e)
  | S n' =>
      match __next__ fuel e with
      | None => None
      | Some (r, e') =>
          match pulls fuel n' e' with
          | None => None
          | Some (rs, e'') => Some (r :: rs, e'')
          end
      end
  end.

(** The samples that the next [k] calls of [next] yield, when the source
    holds that many. *)
Fixpoint upcoming (src : source) (k : nat) : option (list sample) :=
  match k with
  | O => Some []
  | S k' =>
      match next src with
      | inl _ => None
      | inr (s, src') => option_map (cons s) (upcoming src' k')
      end
  end.

(** The source after [k] samples have been taken from it. *)
Definition advance (src : source) (k : nat) : source :=
  mkSource (gen src) (pos src + k).

(** The estimator after the samples [new] have been taken from its
    source and given to the engine, in order. *)
Definition fed (e : DigitalEstimator) (new : list sample)
  : DigitalEstimator :=
  mkEstimator
    (set_control_signal (_filter e) (_control_signal (_filter e) ++ new))
    (_iteration e) (_size e) (advance (_s e) (length new)).

(** *** Runs on an all-zero stream *)

(** A stream all of whose samples are all-zero, whatever its length. *)
Definition zero_stream (src : source) : Prop :=
  forall (i : nat) (s : sample), gen src i = Some s -> Forall (eq 0%Z) s.

(** A source that is never exhausted. *)
Definition endless (src : source) : Prop :=
  forall i : nat, gen src i <> None.

(** What every state of such a run satisfies: the sizes are valid, the
    window holds at most K1+K2 samples, all of them zero, the forward
    state is zero, and every buffered output sample is the zero vector
    of L entries, L being the number of rows of WT. *)
Definition zero_inv (e : DigitalEstimator) : Prop :=
  1 <= _K1 (_filter e) /\
  _control_signal_in_buffer (_filter e)
  <= _K1 (_filter e) + _K2 (_filter e) /\
  Forall (Forall (eq 0%Z)) (_control_signal (_filter e)) /\
  Forall (eq (zeros (length (_WT (_filter e))))) (_estimate (_filter e)) /\
  Forall (eq zero) (_mf (_filter e)) /\
  zero_stream (_s e).

(** Two states of one estimator: the same sizes and output weights, the
    same cap and counter, the same upstream sequence. *)
Definition same_config (e e' : DigitalEstimator) : Prop :=
  _K1 (_filter e') = _K1 (_filter e) /\
  _K2 (_filter e') = _K2 (_filter e) /\
  _WT (_filter e') = _WT (_filter e) /\
  _size e' = _size e /\
  _iteration e' = _iteration e /\
  gen (_s e') = gen (_s e).

(** ** The rest of the class and its use in the examples *)

(** [DigitalEstimator.__iter__]: the estimator is its own iterator. *)
Definition __iter__ (e : DigitalEstimator) : DigitalEstimator := e.

(** [number_of_controls], [number_of_states] and [number_of_inputs]
    hand the question to the engine [self._filter].  Modelled from the
    spec: the accessors of the engine that they call are missing; they
    are the sizes M, N and L that the engine is declared with. *)
Definition number_of_controls (e : DigitalEstimator) : nat :=
  _M (_filter e).
Definition number_of_states (e : DigitalEstimator) : nat :=
  _N (_filter e).
Definition number_of_inputs (e : DigitalEstimator) : nat :=
  _L (_filter e).

(** [iterate_number_of_times] of the comparison notebook: the loop
    [for _ in range(number_of_times): _ = next(iterator)].  The values
    are dropped; an exception of a call of [next] ends the loop and
    leaves it. *)
Fixpoint iterate_number_of_times (fuel : nat) (iterator : DigitalEstimator)
    (number_of_times : nat)
  : option ((exn + unit) * DigitalEstimator) :=
  match number_of_times with
  | O => Some (inr tt, iterator)
  | S n =>
      match __next__ fuel iterator with
      | None => None
      | Some (inl x, e') => Some (inl x, e')
      | Some (inr _, e') => iterate_number_of_times fuel e' n
      end
  end.

(** The body of a [for] statement over an iterator, as in
    [for i in digital_estimator: print(i)]: [next] is called until it
    raises; [StopIteration] ends the loop normally, with the values
    printed so far, and any other exception leaves it.  [steps] bounds
    the number of calls; [None] is a loop still running after them. *)
Fixpoint next_until_stop (fuel steps : nat) (e : DigitalEstimator)
  : option ((exn + list vec) * DigitalEstimator) :=
  match steps with
  | O => None
  | S steps' =>
      match __next__ fuel e with
      | None => None
      | Some (inl StopIteration, e') => Some (inr [], e')
      | Some (inl x, e') => Some (inl x, e')
      | Some (inr u, e') =>
          match next_until_stop fuel steps' e' with
          | None => None
          | Some (inl x, e'') => Some (inl x, e'')
          | Some (inr us, e'') => Some (inr (u :: us), e'')
          end
      end
  end.

(** The [for] statement itself: it takes the iterator of the estimator
    first. *)
Definition for_print (fuel steps : nat) (e : DigitalEstimator)
  : option ((exn + list vec) * DigitalEstimator) :=
  next_until_stop fuel steps (__iter__ e).

(** *** Conditions on states *)

(** A state the adapter can work from: the batch size is positive and
    the window holds no more than K1+K2 samples. *)
Definition window_ok (e : DigitalEstimator) : Prop :=
  1 <= _K1 (_filter e) /\
  _control_signal_in_buffer (_filter e)
  <= _K1 (_filter e) + _K2 (_filter e).

(** Two states of one engine: the same coefficient matrices and the
    same sizes. *)
Definition same_engine (f f' : Filter) : Prop :=
  _Af f' = _Af f /\ _Ab f' = _Ab f /\ _Bf f' = _Bf f /\
  _Bb f' = _Bb f /\ _WT f' = _WT f /\
  _K1 f' = _K1 f /\ _K2 f' = _K2 f /\
  _N f' = _N f /\ _M f' = _M f /\ _L f' = _L f.

(** A source that holds exactly [len] more samples. *)
Definition remaining (src : source) (len : nat) : Prop :=
  (exists l : list sample, upcoming src len = Some l) /\
  gen src (pos src + len) = None.

End Scalars.

(** The generator [dummy_control_sequence_signal] of the example: it
    yields [np.zeros(M, dtype=np.int8)] for ever. *)
Definition dummy_control_sequence_signal (M : nat) : source :=
  mkSource (fun _ => Some (repeat 0%Z M)) 0.

(** A source that yields the samples of a list and is then exhausted. *)
Definition source_of_list (l : list sample) : source :=
  mkSource (nth_error l) 0.

(** ** A small instance over the integers *)

Module Example.

Definition Af : matrix Z := [[1; 0]; [1; 1]]%Z.
Definition Ab : matrix Z := [[0; 1]; [1; 0]]%Z.
Definition Bf : matrix Z := [[1; 0]; [0; 1]]%Z.
Definition Bb : matrix Z := [[2; 0]; [0; 3]]%Z.
Definition WT : matrix Z := [[1; 1]]%Z.

(** An engine with N = M = 2, L = 1, K1 = 2 and K2 = 1 that holds
    the window [w], the output block [us] and the forward state [mf]. *)
Definition engine (w : list sample) (us : list (vec Z)) (mf : vec Z)
  : Filter Z :=
  mkFilter Af Ab Bf Bb WT w us 2 1 2 2 1 mf.

Definition fresh : Filter Z := engine [] [] [0; 0]%Z.

Definition window : list sample := [[1; 0]; [0; 1]; [1; 1]]%Z.

Definition of_char (c : Z) : Z := c.

(** The cast that reads the control bits 0 and 1 as -1 and +1. *)
Definition of_char_pm (c : Z) : Z := (2 * c - 1)%Z.

Definition compute (f : Filter Z) : (exn + unit) * Filter Z :=
  compute_batch 0%Z Z.add Z.mul of_char f.

Definition pull (fuel : nat) (e : DigitalEstimator Z) :=
  __next__ 0%Z Z.add Z.mul of_char fuel e.

(** An estimator whose cap 1 is exceeded by its counter 2 while one
    resolved output sample is still buffered. *)
Definition capped : DigitalEstimator Z :=
  mkEstimator (engine [] [[7]]%Z [0; 0]%Z) 2 1 (source_of_list window).

(** An estimator without cap over a source of three samples, and one
    over a source of two, which is exhausted before the window fills. *)
Definition streaming : DigitalEstimator Z :=
  mkEstimator fresh 0 0 (source_of_list window).

Definition starved : DigitalEstimator Z :=
  mkEstimator fresh 0 0 (source_of_list [[1; 0]; [0; 1]]%Z).

Definition buffered : DigitalEstimator Z :=
  mkEstimator (engine [] [[7]; [8]]%Z [0; 0]%Z) 0 0 (source_of_list window).

Definition silent : DigitalEstimator Z :=
  mkEstimator fresh 0 0 (dummy_control_sequence_signal 2).

(** A base constructor that sets up the engine above with the sizes it
    is given and the counter at 0. *)
Definition base_init (_ _ : unit) (_ : Z) (K1 K2 : Z)
  : exn + Filter Z * Z :=
  inr (mkFilter Af Ab Bf Bb WT [] [] (Z.to_nat K1) (Z.to_nat K2) 2 2 1
                [0; 0]%Z, 0%Z).

(** The second estimator of the example: K1 = 5, K2 = 1, over a
    recording of eleven samples. *)
Definition recording : list sample :=
  [[1; 0]; [0; 1]; [1; 1]; [0; 0]; [1; 0]; [1; 1];
   [0; 1]; [0; 0]; [1; 1]; [1; 0]; [0; 1]]%Z.

Definition replay : DigitalEstimator Z :=
  mkEstimator (mkFilter Af Ab Bf Bb WT [] [] 5 1 2 2 1 [0; 0]%Z) 0 0
              (source_of_list recording).

End Example.

(** * Properties *)

Section Properties.

Variable R : Type.
Variable zero : R.
Variable add mul : R -> R -> R.
Variable of_char : Z -> R.
Variable AnalogSystem DigitalControl : Type.
Variable super_init :
  AnalogSystem -> DigitalControl -> R -> Z -> Z -> exn + Filter R * Z.

Local Abbreviation mv := (mat_vec zero add mul).
Local Abbreviation vadd := (vec_add add).
Local Abbreviation fwd := (forward_pass zero add mul of_char).
Local Abbreviation bwd := (backward_pass zero add mul of_char).
Local Abbreviation mf_ := (mf_at zero add mul of_char).
Local Abbreviation mb_ := (mb_back zero add mul of_char).
Local Abbreviation s_ := (s_at of_char).

Lemma s_at_cons (s : sample) (ss : list sample) (i : nat) :
  1 <= i -> s_ (s :: ss) (S i) = s_ ss i.
Proof.
  intros Hi. unfold s_at. cbn [Nat.sub].
  destruct i as [|j]; [lia|].
  cbn. now rewrite Nat.sub_0_r.
Qed.

Lemma s_at_head (s : sample) (ss : list sample) :
  s_ (s :: ss) 1 = cast of_char s.
Proof. reflexivity. Qed.

Lemma length_forward_pass (Af Bf : matrix R) (ss : list sample) :
  forall mf0, length (fwd Af Bf mf0 ss) = length ss.
Proof.
  induction ss as [|s ss IH]; intros mf0; cbn; [reflexivity|].
  now rewrite IH.
Qed.

Lemma length_backward_pass (Ab Bb : matrix R) (mb0 : vec R)
  (ss : list sample) :
  length (bwd Ab Bb mb0 ss) = length ss.
Proof.
  induction ss as [|s ss IH]; cbn; [reflexivity|].
  now rewrite IH.
Qed.

(** Dropping the first sample of a window is one step of the forward
    recursion. *)
Lemma mf_at_shift (Af Bf : matrix R) (s : sample) (ss : list sample)
  (mf0 : vec R) (i : nat) :
  mf_ Af Bf mf0 (s :: ss) (S i)
  = mf_ Af Bf (vadd (mv Af mf0) (mv Bf (cast of_char s))) ss i.
Proof.
  induction i as [|j IH].
  - reflexivity.
  - change (mf_ Af Bf mf0 (s :: ss) (S (S j)))
      with (vadd (mv Af (mf_ Af Bf mf0 (s :: ss) (S j)))
                 (mv Bf (s_ (s :: ss) (S (S j))))).
    rewrite IH, s_at_cons by lia. reflexivity.
Qed.

Lemma forward_pass_nth (Af Bf : matrix R) (ss : list sample) :
  forall (mf0 : vec R) (i : nat),
    i < length ss ->
    nth_error (fwd Af Bf mf0 ss) i = Some (mf_ Af Bf mf0 ss (S i)).
Proof.
  induction ss as [|s ss IH]; intros mf0 i Hi; cbn [length] in Hi; [lia|].
  destruct i as [|j].
  - reflexivity.
  - cbn [forward_pass nth_error].
    rewrite IH by lia. now rewrite mf_at_shift.
Qed.

(** The backward state [d] steps from the end depends only on the last
    [d] samples of the window. *)
Lemma mb_back_cons (Ab Bb : matrix R) (mb0 : vec R) (s : sample)
  (ss : list sample) (d : nat) :
  d <= length ss ->
  mb_ Ab Bb mb0 (s :: ss) d = mb_ Ab Bb mb0 ss d.
Proof.
  induction d as [|d IH]; intros Hd; [reflexivity|].
  cbn [mb_back]. rewrite IH by lia.
  replace (length (s :: ss) - d) with (S (length ss - d))
    by (cbn [length]; lia).
  rewrite s_at_cons by lia. reflexivity.
Qed.

Lemma backward_pass_hd (Ab Bb : matrix R) (mb0 : vec R) (ss : list sample) :
  hd mb0 (bwd Ab Bb mb0 ss) = mb_ Ab Bb mb0 ss (length ss).
Proof.
  induction ss as [|s ss IH]; [reflexivity|].
  cbn [backward_pass hd length mb_back].
  rewrite IH, mb_back_cons by lia.
  replace (S (length ss) - length ss) with 1 by lia.
  reflexivity.
Qed.

Lemma backward_pass_nth (Ab Bb : matrix R) (mb0 : vec R) (ss : list sample) :
  forall i : nat,
    i < length ss ->
    nth_error (bwd Ab Bb mb0 ss) i
    = Some (mb_ Ab Bb mb0 ss (length ss - i)).
Proof.
  induction ss as [|s ss IH]; intros i Hi; cbn [length] in Hi; [lia|].
  destruct i as [|j].
  - rewrite Nat.sub_0_r, <- backward_pass_hd. reflexivity.
  - cbn [backward_pass nth_error length].
    rewrite IH by lia.
    replace (S (length ss) - S j) with (length ss - j) by lia.
    now rewrite mb_back_cons by lia.
Qed.

Lemma nth_error_combine (A B : Type) (l1 : list A) :
  forall (l2 : list B) (i : nat) (a : A) (b : B),
    nth_error l1 i = Some a ->
    nth_error l2 i = Some b ->
    nth_error (combine l1 l2) i = Some (a, b).
Proof.
  induction l1 as [|x l1 IH]; intros l2 i a b H1 H2.
  - destruct i; discriminate.
  - destruct l2 as [|y l2]; [destruct i; discriminate|].
    destruct i as [|j]; cbn in *.
    + congruence.
    + now apply IH.
Qed.

(** The window test of [compute_batch] on a full window. *)
Lemma compute_batch_ok (f : Filter R) :
  _control_signal_in_buffer f = _K3 f ->
  compute_batch zero add mul of_char f
  = (inr tt,
     mkFilter (_Af f) (_Ab f) (_Bf f) (_Bb f) (_WT f)
       (skipn (_K1 f) (_control_signal f))
       (map (combine_states zero add mul (_WT f))
          (firstn (_K1 f)
             (combine (fwd (_Af f) (_Bf f) (_mf f) (_control_signal f))
                      (bwd (_Ab f) (_Bb f) (zeros zero (_N f))
                           (_control_signal f)))))
       (_K1 f) (_K2 f) (_N f) (_M f) (_L f)
       (last (firstn (_K1 f)
                (fwd (_Af f) (_Bf f) (_mf f) (_control_signal f)))
             (_mf f))).
Proof.
  intros H. unfold compute_batch.
  rewrite H, Nat.eqb_refl. reflexivity.
Qed.

(** C1.  On a full window of K1+K2 control samples and for every carried
    forward state, [compute_batch] succeeds; the forward states satisfy
    mf_0 = the carried state and mf_i = Af mf_(i-1) + Bf s_i for
    i = 1..K1+K2; the backward states satisfy mb_(K1+K2+1) = 0 and
    mb_i = Ab mb_(i+1) + Bb s_i for i = 1..K1+K2; and the block of output
    samples has exactly K1 entries, the i-th being WT (mf_i + mb_i). *)
Theorem compute_batch_full_window (f : Filter R) :
  _control_signal_in_buffer f = _K1 f + _K2 f ->
  let ss := _control_signal f in
  let mf := mf_ (_Af f) (_Bf f) (_mf f) ss in
  let mb := mb_at zero add mul of_char (_Ab f) (_Bb f) (zeros zero (_N f)) ss in
  mf 0 = _mf f /\
  (forall i, 1 <= i <= _K1 f + _K2 f ->
     mf i = vadd (mv (_Af f) (mf (i - 1))) (mv (_Bf f) (s_ ss i))) /\
  mb (_K1 f + _K2 f + 1) = zeros zero (_N f) /\
  (forall i, 1 <= i <= _K1 f + _K2 f ->
     mb i = vadd (mv (_Ab f) (mb (i + 1))) (mv (_Bb f) (s_ ss i))) /\
  exists f' : Filter R,
    compute_batch zero add mul of_char f = (inr tt, f') /\
    length (_estimate f') = _K1 f /\
    forall i, 1 <= i <= _K1 f ->
      nth_error (_estimate f') (i - 1)
      = Some (mv (_WT f) (vadd (mf i) (mb i))).
Proof.
  intros Hfull ss mf mb.
  assert (Hlen : length ss = _K1 f + _K2 f) by exact Hfull.
  split; [reflexivity|].
  split.
  { intros i Hi. destruct i as [|j]; [lia|].
    unfold mf. cbn [mf_at]. now rewrite Nat.sub_succ, Nat.sub_0_r. }
  split.
  { unfold mb, mb_at. rewrite Hlen, Nat.sub_diag. reflexivity. }
  split.
  { intros i Hi. unfold mb, mb_at. rewrite Hlen.
    replace (_K1 f + _K2 f + 1 - i) with (S (_K1 f + _K2 f - i)) by lia.
    cbn [mb_back]. rewrite Hlen.
    replace (_K1 f + _K2 f + 1 - (i + 1)) with (_K1 f + _K2 f - i) by lia.
    replace (_K1 f + _K2 f - (_K1 f + _K2 f - i)) with i by lia.
    reflexivity. }
  eexists. split; [apply compute_batch_ok; exact Hfull|].
  cbn [_estimate]. split.
  - rewrite length_map, length_firstn, length_combine,
      length_forward_pass, length_backward_pass.
    fold ss. lia.
  - intros i Hi. destruct i as [|j]; [lia|].
    rewrite Nat.sub_succ, Nat.sub_0_r.
    rewrite nth_error_map, nth_error_firstn.
    destruct (Nat.ltb_spec j (_K1 f)) as [_|Hge]; [|lia].
    erewrite nth_error_combine;
      [| apply forward_pass_nth; fold ss; lia
       | apply backward_pass_nth; fold ss; lia ].
    cbn [option_map]. unfold combine_states. cbn [fst snd].
    unfold mf, mb, mb_at. fold ss.
    now replace (length ss + 1 - S j) with (length ss - j) by lia.
Qed.

(** C6.  On a window that holds fewer than K1+K2 samples,
    [compute_batch] fails with [BufferUnderrunError], and the engine
    after the failing call, its forward state in particular, is the one
    before the call. *)
Theorem compute_batch_underrun (f : Filter R) :
  _control_signal_in_buffer f < _K1 f + _K2 f ->
  fst (compute_batch zero add mul of_char f) = inl BufferUnderrunError /\
  _mf (snd (compute_batch zero add mul of_char f)) = _mf f /\
  snd (compute_batch zero add mul of_char f) = f.
Proof.
  intros Hlt. unfold compute_batch, _K3.
  destruct (Nat.eqb_spec (_control_signal_in_buffer f) (_K1 f + _K2 f))
    as [Heq|Hne]; [lia|].
  cbn. repeat split.
Qed.

(** ** Construction *)

(** C3.  A constructor call with K1 < 1 or with K2 < 0 fails with a
    configuration error, whatever the other arguments are, and so
    produces no estimator. *)
Theorem init_rejects_bad_sizes (src : source) (a : AnalogSystem)
  (d : DigitalControl) (eta2 : R) (K1 K2 stop : Z) :
  (K1 < 1 \/ K2 < 0)%Z ->
  exists x : exn,
    fst (__init__ super_init src a d eta2 K1 K2 stop) = inl x /\
    ConfigurationError x = true.
Proof.
  intros Hbad. unfold __init__.
  destruct (Z.ltb_spec stop 0); [eexists; split; reflexivity|].
  destruct (Z.ltb_spec K1 1); [eexists; split; reflexivity|].
  destruct (Z.ltb_spec K2 0); [eexists; split; reflexivity|].
  lia.
Qed.

(** C9.  A constructor call with a negative
    [stop_after_number_of_iterations] raises, and nothing has happened
    by then: no filter coefficient has been computed and no sample has
    been taken from the source. *)
Theorem init_rejects_negative_cap (src : source) (a : AnalogSystem)
  (d : DigitalControl) (eta2 : R) (K1 K2 stop : Z) :
  (stop < 0)%Z ->
  __init__ super_init src a d eta2 K1 K2 stop
  = (inl (Raised "stop_after_number_of_iterations must be non negative"),
     []).
Proof.
  intros Hneg. unfold __init__.
  destruct (Z.ltb_spec stop 0); [reflexivity|lia].
Qed.

(** ** Pulling *)

Local Abbreviation nxt := (__next__ zero add mul of_char).

Lemma cap_exceeded_true (e : DigitalEstimator R) :
  (_size e <> 0)%Z -> (_size e < _iteration e)%Z -> cap_exceeded e = true.
Proof.
  intros Hnz Hlt. unfold cap_exceeded.
  destruct (Z.eqb_spec (_size e) 0); [contradiction|].
  destruct (Z.ltb_spec (_size e) (_iteration e)); [reflexivity|lia].
Qed.

(** With the default cap 0 the cap test of [__next__] never fires. *)
Lemma cap_default_never_exceeded (e : DigitalEstimator R) :
  _size e = 0%Z -> cap_exceeded e = false.
Proof. intros H. unfold cap_exceeded. now rewrite H. Qed.

Lemma next_capped (e : DigitalEstimator R) (fuel : nat) :
  cap_exceeded e = true -> nxt (S fuel) e = Some (inl StopIteration, e).
Proof. intros H. cbn [__next__]. now rewrite H. Qed.

(** C10.  Once the counter exceeds a nonzero cap, every pull signals
    end-of-sequence and leaves the estimator as it is, so that the same
    holds for all later pulls, whatever output samples are buffered. *)
Theorem capped_pulls_stop (e : DigitalEstimator R) (fuel n : nat) :
  (_size e <> 0)%Z ->
  (_size e < _iteration e)%Z ->
  nxt (S fuel) e = Some (inl StopIteration, e) /\
  pulls zero add mul of_char (S fuel) n e
  = Some (repeat (inl StopIteration) n, e).
Proof.
  intros Hnz Hlt.
  assert (Hcap : cap_exceeded e = true) by now apply cap_exceeded_true.
  split; [now apply next_capped|].
  induction n as [|n IH]; [reflexivity|].
  cbn [pulls repeat]. rewrite next_capped by exact Hcap.
  now rewrite IH.
Qed.

(** *** The loop that fills the window *)

Lemma fed_nil (e : DigitalEstimator R) : fed e [] = e.
Proof.
  destruct e as [f it sz [g p]]. destruct f.
  unfold fed, advance, set_control_signal. cbn.
  now rewrite app_nil_r, Nat.add_0_r.
Qed.

Lemma fed_cons (e : DigitalEstimator R) (s : sample) (new : list sample) :
  fed (mkEstimator (input (_filter e) s) (_iteration e) (_size e)
                   (mkSource (gen (_s e)) (S (pos (_s e)))))
      new
  = fed e (s :: new).
Proof.
  unfold fed, advance, input, set_control_signal. cbn.
  rewrite <- app_assoc. cbn.
  now rewrite Nat.add_succ_r.
Qed.

Lemma upcoming_length (k : nat) :
  forall (src : source) (new : list sample),
    upcoming src k = Some new -> length new = k.
Proof.
  induction k as [|k IH]; intros src new H; cbn in H.
  - now injection H as <-.
  - unfold next in H. destruct (gen src (pos src)) as [s|]; [|discriminate].
    destruct (upcoming _ k) as [new'|] eqn:E; [|discriminate].
    injection H as <-. cbn. f_equal. eapply IH, E.
Qed.

Lemma full_iff (f : Filter R) :
  full f = true <-> _K1 f + _K2 f <= _control_signal_in_buffer f.
Proof. unfold full, _K3. apply Nat.leb_le. Qed.

(** When the source holds the samples that the window misses, the loop
    takes exactly those and stops. *)
Lemma fill_window_full (k : nat) :
  forall (fuel : nat) (e : DigitalEstimator R) (new : list sample),
    upcoming (_s e) k = Some new ->
    _control_signal_in_buffer (_filter e) + k
    = _K1 (_filter e) + _K2 (_filter e) ->
    k < fuel ->
    fill_window fuel e = Some (inr tt, fed e new).
Proof.
  induction k as [|k IH]; intros fuel e new Hup Hcnt Hfuel;
    destruct fuel as [|fuel]; try lia; cbn [fill_window].
  - assert (Hf : full (_filter e) = true) by (apply full_iff; lia).
    rewrite Hf. cbn in Hup. injection Hup as <-. now rewrite fed_nil.
  - assert (Hf : full (_filter e) = false).
    { destruct (full (_filter e)) eqn:E; [|reflexivity].
      apply full_iff in E. lia. }
    rewrite Hf. cbn [negb]. cbn [upcoming] in Hup.
    unfold next in *.
    destruct (gen (_s e) (pos (_s e))) as [s|]; [|discriminate].
    destruct (upcoming _ k) as [new'|] eqn:E; [|discriminate].
    injection Hup as <-.
    rewrite (IH fuel _ new').
    + now rewrite fed_cons.
    + exact E.
    + unfold _control_signal_in_buffer in *. cbn.
      rewrite length_app. cbn. lia.
    + lia.
Qed.

(** When the source is exhausted after [k] more samples and the window
    misses more than [k], the loop takes these and ends in
    [StopIteration]. *)
Lemma fill_window_exhausted (k : nat) :
  forall (fuel : nat) (e : DigitalEstimator R) (new : list sample),
    upcoming (_s e) k = Some new ->
    gen (_s e) (pos (_s e) + k) = None ->
    _control_signal_in_buffer (_filter e) + k
    < _K1 (_filter e) + _K2 (_filter e) ->
    k < fuel ->
    fill_window fuel e = Some (inl StopIteration, fed e new).
Proof.
  induction k as [|k IH]; intros fuel e new Hup Hend Hcnt Hfuel;
    destruct fuel as [|fuel]; try lia; cbn [fill_window];
    (assert (Hf : full (_filter e) = false);
     [ destruct (full (_filter e)) eqn:E; [|reflexivity];
       apply full_iff in E; lia | ]);
    rewrite Hf; cbn [negb].
  - unfold next. rewrite Nat.add_0_r in Hend. rewrite Hend.
    cbn in Hup. injection Hup as <-. now rewrite fed_nil.
  - cbn [upcoming] in Hup. unfold next in *.
    destruct (gen (_s e) (pos (_s e))) as [s|]; [|discriminate].
    destruct (upcoming _ k) as [new'|] eqn:E; [|discriminate].
    injection Hup as <-.
    rewrite (IH fuel _ new').
    + now rewrite fed_cons.
    + exact E.
    + cbn [_s gen pos]. rewrite <- Hend. f_equal. lia.
    + unfold _control_signal_in_buffer in *. cbn.
      rewrite length_app. cbn. lia.
    + lia.
Qed.

(** C8.  If the estimator holds no output sample, its cap is not
    exceeded and the source is exhausted before the window is full, a
    pull ends in [StopIteration], the end-of-sequence signal, and in no
    other exception; the samples taken before the end stay in the
    window. *)
Theorem next_propagates_exhaustion (e : DigitalEstimator R)
  (k fuel : nat) (new : list sample) :
  cap_exceeded e = false ->
  empty (_filter e) = true ->
  upcoming (_s e) k = Some new ->
  gen (_s e) (pos (_s e) + k) = None ->
  _control_signal_in_buffer (_filter e) + k
  < _K1 (_filter e) + _K2 (_filter e) ->
  k + 1 < fuel ->
  nxt fuel e = Some (inl StopIteration, fed e new).
Proof.
  intros Hcap Hemp Hup Hend Hcnt Hfuel.
  destruct fuel as [|fuel]; [lia|].
  cbn [__next__]. rewrite Hcap, Hemp. cbn [negb].
  now rewrite (@fill_window_exhausted k fuel e new) by (assumption || lia).
Qed.

Lemma compute_batch_estimate (f : Filter R) :
  _control_signal_in_buffer f = _K1 f + _K2 f ->
  length (_estimate (snd (compute_batch zero add mul of_char f))) = _K1 f.
Proof.
  intros Hfull. rewrite compute_batch_ok by exact Hfull.
  cbn [snd _estimate].
  rewrite length_map, length_firstn, length_combine,
    length_forward_pass, length_backward_pass.
  unfold _control_signal_in_buffer in Hfull. lia.
Qed.

Lemma next_buffered (e : DigitalEstimator R) (u : vec R) (us : list (vec R))
  (fuel : nat) :
  cap_exceeded e = false ->
  _estimate (_filter e) = u :: us ->
  nxt (S fuel) e
  = Some (inr u, set_filter e (set_estimate (_filter e) us)).
Proof.
  intros Hcap Hest. cbn [__next__]. rewrite Hcap.
  unfold empty, output. now rewrite Hest.
Qed.

(** C4, amended.  In a state whose cap is not exceeded, a pull returns
    and consumes the oldest buffered output sample when there is one.
    When there is none, K1 >= 1, and the source holds the samples that
    the window misses, the pull takes exactly these from the source,
    runs [compute_batch] once on the full window and returns the first
    sample of the new block, which it consumes. *)
Theorem next_pull (e : DigitalEstimator R) :
  cap_exceeded e = false ->
  (forall (u : vec R) (us : list (vec R)) (fuel : nat),
     _estimate (_filter e) = u :: us ->
     nxt (S fuel) e
     = Some (inr u, set_filter e (set_estimate (_filter e) us)))
  /\
  (forall (new : list sample) (fuel : nat),
     _estimate (_filter e) = [] ->
     1 <= _K1 (_filter e) ->
     _control_signal_in_buffer (_filter e)
     <= _K1 (_filter e) + _K2 (_filter e) ->
     upcoming (_s e)
       (_K1 (_filter e) + _K2 (_filter e)
        - _control_signal_in_buffer (_filter e)) = Some new ->
     _K1 (_filter e) + _K2 (_filter e)
     - _control_signal_in_buffer (_filter e) + 2 <= fuel ->
     exists (f' : Filter R) (u : vec R) (us : list (vec R)),
       compute_batch zero add mul of_char (_filter (fed e new))
       = (inr tt, f') /\
       _estimate f' = u :: us /\
       nxt fuel e
       = Some (inr u, set_filter (fed e new) (set_estimate f' us))).
Proof.
  intros Hcap. split.
  { intros u us fuel Hest. now apply next_buffered. }
  intros new fuel Hest HK1 Hcnt Hup Hfuel.
  set (k := _K1 (_filter e) + _K2 (_filter e)
            - _control_signal_in_buffer (_filter e)) in *.
  assert (Hlen : length new = k) by (eapply upcoming_length, Hup).
  assert (Hfull : _control_signal_in_buffer (_filter (fed e new))
                  = _K1 (_filter (fed e new)) + _K2 (_filter (fed e new))).
  { unfold _control_signal_in_buffer in *. cbn.
    rewrite length_app, Hlen. lia. }
  pose proof (@compute_batch_estimate _ Hfull) as Hest'.
  destruct (compute_batch zero add mul of_char (_filter (fed e new)))
    as [r f'] eqn:Hcb.
  pose proof (@compute_batch_ok _ Hfull) as Hok.
  rewrite Hcb in Hok. injection Hok as Hr Hf'.
  cbn [snd] in Hest'. cbn [fed _filter set_control_signal _K1] in Hest'.
  destruct (_estimate f') as [|u us] eqn:Hus; [cbn in Hest'; lia|].
  exists f', u, us. split; [now rewrite Hr|]. split; [exact Hus|].
  destruct fuel as [|fuel]; [lia|].
  cbn [__next__]. rewrite Hcap.
  unfold empty at 1. rewrite Hest. cbn [negb].
  rewrite (@fill_window_full k fuel e new) by (assumption || lia).
  rewrite Hcb, Hr.
  destruct fuel as [|fuel]; [lia|].
  rewrite (@next_buffered (set_filter (fed e new) f') u us fuel);
    [reflexivity | exact Hcap | exact Hus].
Qed.

(** ** All-zero input *)

Section ZeroInput.

Hypothesis add_zero : add zero zero = zero.
Hypothesis mul_zero : forall a : R, mul a zero = zero.
Hypothesis of_char_zero : of_char 0%Z = zero.

Local Abbreviation Z0s := (Forall (eq zero)).

Lemma zeros_zero (n : nat) : Z0s (zeros zero n).
Proof. induction n; cbn; constructor; auto. Qed.

Lemma dot_zero (r : vec R) : forall v : vec R, Z0s v -> dot zero add mul r v = zero.
Proof.
  induction r as [|a r IH]; intros v Hv; [reflexivity|].
  destruct v as [|b v]; [reflexivity|].
  apply Forall_cons_iff in Hv. destruct Hv as [<- Hv].
  unfold dot in *. cbn. now rewrite mul_zero, IH, add_zero.
Qed.

Lemma mat_vec_zero (A : matrix R) (v : vec R) :
  Z0s v -> mv A v = zeros zero (length A).
Proof.
  intros Hv. unfold mat_vec, zeros.
  induction A as [|r A IH]; [reflexivity|].
  cbn. f_equal; [now apply dot_zero|exact IH].
Qed.

Lemma vec_add_zero (u : vec R) : forall v : vec R, Z0s u -> Z0s v -> Z0s (vadd u v).
Proof.
  induction u as [|a u IH]; intros v Hu Hv; [constructor|].
  destruct v as [|b v]; [constructor|].
  apply Forall_cons_iff in Hu. destruct Hu as [<- Hu].
  apply Forall_cons_iff in Hv. destruct Hv as [<- Hv].
  cbn. constructor; [now rewrite add_zero|].
  apply IH; assumption.
Qed.

Lemma cast_zero (s : sample) : Forall (eq 0%Z) s -> Z0s (cast of_char s).
Proof.
  induction 1 as [|c s Hc _ IH]; cbn; constructor; [|exact IH].
  rewrite <- Hc. now rewrite of_char_zero.
Qed.

Lemma step_zero (A B : matrix R) (m : vec R) (s : sample) :
  Z0s m -> Forall (eq 0%Z) s -> Z0s (vadd (mv A m) (mv B (cast of_char s))).
Proof.
  intros Hm Hs. apply vec_add_zero.
  - rewrite mat_vec_zero by exact Hm. apply zeros_zero.
  - rewrite mat_vec_zero by now apply cast_zero. apply zeros_zero.
Qed.

Lemma forward_pass_zero (Af Bf : matrix R) (ss : list sample) :
  forall mf0 : vec R,
    Z0s mf0 -> Forall (Forall (eq 0%Z)) ss ->
    Forall Z0s (fwd Af Bf mf0 ss).
Proof.
  induction ss as [|s ss IH]; intros mf0 Hm Hss; [constructor|].
  apply Forall_cons_iff in Hss. destruct Hss as [Hs Hss]. cbn.
  assert (Z0s (vadd (mv Af mf0) (mv Bf (cast of_char s))))
    by now apply step_zero.
  constructor; auto.
Qed.

Lemma backward_pass_zero (Ab Bb : matrix R) (mb0 : vec R) (ss : list sample) :
  Z0s mb0 -> Forall (Forall (eq 0%Z)) ss ->
  Forall Z0s (bwd Ab Bb mb0 ss).
Proof.
  intros Hm. induction 1 as [|s ss Hs _ IH]; [constructor|].
  cbn. constructor; [|exact IH].
  apply step_zero; [|exact Hs].
  destruct IH; cbn; assumption.
Qed.

Lemma Forall_firstn (A : Type) (P : A -> Prop) (n : nat) :
  forall l : list A, Forall P l -> Forall P (firstn n l).
Proof.
  induction n as [|n IH]; intros l Hl; [constructor|].
  destruct Hl; cbn; constructor; auto.
Qed.

Lemma Forall_skipn (A : Type) (P : A -> Prop) (n : nat) :
  forall l : list A, Forall P l -> Forall P (skipn n l).
Proof.
  induction n as [|n IH]; intros l Hl; [exact Hl|].
  destruct Hl; cbn; [constructor|auto].
Qed.

Lemma Forall_last (A : Type) (P : A -> Prop) (d : A) (l : list A) :
  Forall P l -> P d -> P (last l d).
Proof.
  intros Hl Hd. induction Hl as [|a l Ha Hl IH]; [exact Hd|].
  destruct l; [exact Ha|exact IH].
Qed.

Lemma Forall_combine (A B : Type) (P : A -> Prop) (Q : B -> Prop)
  (l1 : list A) :
  forall l2 : list B,
    Forall P l1 -> Forall Q l2 ->
    Forall (fun p => P (fst p) /\ Q (snd p)) (combine l1 l2).
Proof.
  induction l1 as [|a l1 IH]; intros l2 H1 H2; [constructor|].
  destruct l2 as [|b l2]; [constructor|].
  apply Forall_cons_iff in H1. destruct H1 as [Ha H1].
  apply Forall_cons_iff in H2. destruct H2 as [Hb H2].
  cbn. constructor; auto.
Qed.

(** A batch over an all-zero window and a zero forward state resolves to
    zero output samples and leaves a zero forward state. *)
Lemma compute_batch_zero (e : DigitalEstimator R) :
  zero_inv zero e ->
  _control_signal_in_buffer (_filter e)
  = _K1 (_filter e) + _K2 (_filter e) ->
  exists f' : Filter R,
    compute_batch zero add mul of_char (_filter e) = (inr tt, f') /\
    _estimate f' <> [] /\
    zero_inv zero (set_filter e f') /\
    same_config e (set_filter e f').
Proof.
  intros (HK1 & Hcnt & Hbuf & Hest & Hmf & Hsrc) Hfull.
  eexists. split; [apply compute_batch_ok; exact Hfull|].
  unfold _control_signal_in_buffer in Hfull, Hcnt.
  pose proof (forward_pass_zero (_Af (_filter e)) (_Bf (_filter e))
                Hmf Hbuf) as Hfw.
  pose proof (@backward_pass_zero (_Ab (_filter e)) (_Bb (_filter e))
                (zeros zero (_N (_filter e))) _
                (zeros_zero _) Hbuf) as Hbw.
  split; [|split].
  - cbn [_estimate]. intros Hnil.
    apply (f_equal (@length _)) in Hnil.
    rewrite length_map, length_firstn, length_combine,
      length_forward_pass, length_backward_pass in Hnil.
    cbn in Hnil. lia.
  - unfold zero_inv, set_filter, _control_signal_in_buffer. cbn.
    repeat split.
    + exact HK1.
    + rewrite length_skipn. lia.
    + now apply Forall_skipn.
    + apply Forall_map. apply Forall_firstn.
      eapply Forall_impl; [|apply (Forall_combine Hfw Hbw)].
      intros [a b] [Ha Hb]. unfold combine_states. cbn [fst snd] in *.
      symmetry. apply mat_vec_zero. now apply vec_add_zero.
    + apply Forall_last; [now apply Forall_firstn|exact Hmf].
    + exact Hsrc.
  - unfold same_config, set_filter. cbn. repeat split.
Qed.

Lemma same_config_refl (e : DigitalEstimator R) : same_config e e.
Proof. unfold same_config. repeat split. Qed.

Lemma same_config_trans (e1 e2 e3 : DigitalEstimator R) :
  same_config e1 e2 -> same_config e2 e3 -> same_config e1 e3.
Proof.
  unfold same_config.
  intros (A1 & A2 & A3 & A4 & A5 & A6) (B1 & B2 & B3 & B4 & B5 & B6).
  repeat split; congruence.
Qed.

Lemma cap_exceeded_same (e e' : DigitalEstimator R) :
  same_config e e' -> cap_exceeded e' = cap_exceeded e.
Proof.
  intros (_ & _ & _ & Hs & Hi & _). unfold cap_exceeded.
  now rewrite Hs, Hi.
Qed.

Lemma endless_same (e e' : DigitalEstimator R) :
  same_config e e' -> endless (_s e) -> endless (_s e').
Proof.
  intros (_ & _ & _ & _ & _ & Hg) H i. rewrite Hg. apply H.
Qed.

(** On an all-zero stream the loop that fills the window keeps the
    invariant; it ends at a full window, or in [StopIteration] when the
    stream has an end. *)
Lemma fill_window_zero (fuel : nat) :
  forall e : DigitalEstimator R,
    zero_inv zero e ->
    _K1 (_filter e) + _K2 (_filter e)
    - _control_signal_in_buffer (_filter e) < fuel ->
    exists (r : exn + unit) (e' : DigitalEstimator R),
      fill_window fuel e = Some (r, e') /\
      zero_inv zero e' /\
      same_config e e' /\
      _estimate (_filter e') = _estimate (_filter e) /\
      ((r = inl StopIteration /\ ~ endless (_s e)) \/
       (r = inr tt /\
        _control_signal_in_buffer (_filter e')
        = _K1 (_filter e') + _K2 (_filter e'))).
Proof.
  induction fuel as [|fuel IH]; intros e Hinv Hfuel; [lia|].
  cbn [fill_window].
  destruct (full (_filter e)) eqn:Hf; cbn [negb].
  - exists (inr tt), e. apply full_iff in Hf.
    pose proof (proj1 (proj2 Hinv)) as Hcnt.
    split; [reflexivity|]. split; [exact Hinv|].
    split; [apply same_config_refl|]. split; [reflexivity|].
    right. split; [reflexivity|lia].
  - assert (Hlt : _control_signal_in_buffer (_filter e)
                  < _K1 (_filter e) + _K2 (_filter e)).
    { destruct (Nat.lt_ge_cases (_control_signal_in_buffer (_filter e))
                  (_K1 (_filter e) + _K2 (_filter e))) as [H|H];
        [exact H|].
      apply full_iff in H. congruence. }
    unfold next. destruct (gen (_s e) (pos (_s e))) as [s|] eqn:Hg.
    + destruct Hinv as (HK1 & Hcnt & Hbuf & Hest & Hmf & Hsrc).
      destruct (IH (mkEstimator (input (_filter e) s) (_iteration e)
                                (_size e)
                                (mkSource (gen (_s e)) (S (pos (_s e))))))
        as (r & e' & Hrun & Hinv' & Hsame & Hest' & Hres).
      * unfold zero_inv, _control_signal_in_buffer in *. cbn.
        repeat split; try assumption.
        -- rewrite length_app. cbn. lia.
        -- apply Forall_app. split; [exact Hbuf|].
           constructor; [|constructor]. eapply Hsrc, Hg.
      * unfold _control_signal_in_buffer in *. cbn.
        rewrite length_app. cbn. lia.
      * exists r, e'. split; [exact Hrun|]. split; [exact Hinv'|].
        split; [|split].
        -- eapply same_config_trans; [|exact Hsame].
           unfold same_config. cbn. repeat split.
        -- exact Hest'.
        -- destruct Hres as [[Hr Hend]|Hres]; [left|right; exact Hres].
           split; [exact Hr|]. intros He. apply Hend.
           intros i. cbn. apply He.
    + exists (inl StopIteration), e.
      split; [reflexivity|]. split; [exact Hinv|].
      split; [apply same_config_refl|]. split; [reflexivity|].
      left. split; [reflexivity|]. intros He. exact (He _ Hg).
Qed.

(** Returning a buffered sample on an all-zero run. *)
Lemma next_buffered_zero (e : DigitalEstimator R) (u : vec R)
  (us : list (vec R)) (fuel : nat) :
  zero_inv zero e ->
  cap_exceeded e = false ->
  _estimate (_filter e) = u :: us ->
  nxt (S fuel) e
  = Some (inr (zeros zero (length (_WT (_filter e)))),
          set_filter e (set_estimate (_filter e) us)) /\
  zero_inv zero (set_filter e (set_estimate (_filter e) us)) /\
  same_config e (set_filter e (set_estimate (_filter e) us)).
Proof.
  intros (HK1 & Hcnt & Hbuf & Hest & Hmf & Hsrc) Hcap Hus.
  rewrite Hus in Hest. apply Forall_cons_iff in Hest.
  destruct Hest as [Hu Hest].
  split; [|split].
  - rewrite (@next_buffered e u us fuel Hcap Hus). now rewrite <- Hu.
  - unfold zero_inv, _control_signal_in_buffer in *. cbn.
    repeat split; assumption.
  - unfold same_config. cbn. repeat split.
Qed.

(** One pull on an all-zero run: it returns, and what it returns is
    the zero output sample or the end-of-sequence signal; it is the zero
    sample when the cap is not exceeded and the stream has no end. *)
Lemma next_zero (fuel : nat) (e : DigitalEstimator R) :
  zero_inv zero e ->
  _K1 (_filter e) + _K2 (_filter e) + 2 <= fuel ->
  exists (r : exn + vec R) (e' : DigitalEstimator R),
    nxt fuel e = Some (r, e') /\
    zero_inv zero e' /\
    same_config e e' /\
    (r = inl StopIteration \/
     r = inr (zeros zero (length (_WT (_filter e))))) /\
    (cap_exceeded e = false -> endless (_s e) ->
     r = inr (zeros zero (length (_WT (_filter e))))).
Proof.
  intros Hinv Hfuel.
  destruct fuel as [|fuel]; [lia|].
  destruct (cap_exceeded e) eqn:Hcap.
  { exists (inl StopIteration), e. rewrite next_capped by exact Hcap.
    repeat split; try apply Hinv; auto; discriminate. }
  destruct (_estimate (_filter e)) as [|u us] eqn:Hus.
  2:{ destruct (@next_buffered_zero e u us fuel Hinv Hcap Hus)
        as (Hrun & Hinv' & Hsame).
      eexists _, _. split; [exact Hrun|]. repeat split; auto;
        try apply Hinv'; apply Hsame. }
  destruct (@fill_window_zero fuel e Hinv)
    as (r & e1 & Hrun & Hinv1 & Hsame1 & Hest1 & Hres); [lia|].
  cbn [__next__]. rewrite Hcap. unfold empty at 1. rewrite Hus.
  cbn [negb]. rewrite Hrun.
  destruct Hres as [[-> Hend]|[-> Hfull]].
  { exists (inl StopIteration), e1. repeat split; auto;
      try apply Hinv1; try apply Hsame1.
    intros _ He. contradiction. }
  destruct (compute_batch_zero Hinv1 Hfull)
    as (f' & Hcb & Hne & Hinv2 & Hsame2).
  rewrite Hcb.
  destruct (_estimate f') as [|u us'] eqn:Hus'; [contradiction|].
  assert (Hsame12 : same_config e (set_filter e1 f'))
    by (eapply same_config_trans; eassumption).
  assert (Hcap2 : cap_exceeded (set_filter e1 f') = false)
    by (rewrite (cap_exceeded_same Hsame12); exact Hcap).
  destruct fuel as [|fuel]; [lia|].
  destruct (@next_buffered_zero (set_filter e1 f') u us' fuel
              Hinv2 Hcap2 Hus') as (Hrun3 & Hinv3 & Hsame3).
  assert (HWT : _WT (_filter (set_filter e1 f')) = _WT (_filter e))
    by apply Hsame12.
  rewrite HWT in Hrun3.
  eexists _, _. split; [exact Hrun3|].
  split; [exact Hinv3|].
  split; [eapply same_config_trans; eassumption|].
  split; [right; reflexivity|reflexivity].
Qed.

(** C7, amended.  When the control bit 0 enters the arithmetic as the
    scalar 0 (the samples are used as 0/1 values), and 0 + 0 = 0 and
    a * 0 = 0 hold for the scalars: on an all-zero control stream of any
    length, from the initial state of a valid configuration (K1 >= 1,
    empty window, no output buffered, zero forward state), every pull
    returns, and every output sample returned is the zero vector of L
    entries; a pull that returns no sample signals the end of the
    sequence.  When no cap is set and the stream has no end, every pull
    returns the zero sample. *)
Theorem zero_stream_zero_output (e : DigitalEstimator R) (n fuel : nat) :
  1 <= _K1 (_filter e) ->
  _control_signal (_filter e) = [] ->
  _estimate (_filter e) = [] ->
  _mf (_filter e) = zeros zero (_N (_filter e)) ->
  zero_stream (_s e) ->
  _K1 (_filter e) + _K2 (_filter e) + 2 <= fuel ->
  exists (rs : list (exn + vec R)) (e' : DigitalEstimator R),
    pulls zero add mul of_char fuel n e = Some (rs, e') /\
    length rs = n /\
    Forall (fun r => r = inl StopIteration \/
                     r = inr (zeros zero (length (_WT (_filter e))))) rs /\
    (_size e = 0%Z -> endless (_s e) ->
     rs = repeat (inr (zeros zero (length (_WT (_filter e))))) n).
Proof.
  intros HK1 Hbuf Hest Hmf Hsrc Hfuel.
  assert (Hinv : zero_inv zero e).
  { unfold zero_inv, _control_signal_in_buffer.
    rewrite Hbuf, Hest, Hmf. cbn.
    repeat split; auto; try lia. apply zeros_zero. }
  clear HK1 Hbuf Hest Hmf Hsrc.
  revert e Hinv Hfuel.
  induction n as [|n IH]; intros e Hinv Hfuel.
  { exists [], e. repeat split; auto. }
  destruct (next_zero Hinv Hfuel)
    as (r & e1 & Hrun & Hinv1 & Hsame & Hr & Hr').
  destruct (IH e1 Hinv1) as (rs & e2 & Hruns & Hlen & Hrs & Hrs').
  { destruct Hsame as (-> & -> & _). exact Hfuel. }
  assert (HWT : _WT (_filter e1) = _WT (_filter e)) by apply Hsame.
  rewrite HWT in Hrs, Hrs'.
  exists (r :: rs), e2. cbn [pulls]. rewrite Hrun, Hruns.
  split; [reflexivity|]. split; [cbn; now rewrite Hlen|].
  split; [constructor; assumption|].
  intros Hsz He. cbn [repeat]. f_equal.
  - apply Hr'; [|exact He]. unfold cap_exceeded. now rewrite Hsz.
  - apply Hrs'; [|eapply endless_same; eassumption].
    destruct Hsame as (_ & _ & _ & -> & _). exact Hsz.
Qed.

End ZeroInput.

(** * Further properties of the constructor and of the adapter *)

(** ** The constructor *)

(** X1.  A constructor call returns an estimator exactly when the cap is
    not negative, K1 >= 1, K2 >= 0 and the base constructor succeeds on
    the same arguments; the estimator then holds the engine and counter
    of the base constructor, the cap as given and the source as given,
    with no sample taken. *)
Theorem init_constructs_iff (src : source) (a : AnalogSystem)
  (d : DigitalControl) (eta2 : R) (K1 K2 stop : Z)
  (e : DigitalEstimator R) :
  fst (__init__ super_init src a d eta2 K1 K2 stop) = inr e
  <->
  (0 <= stop)%Z /\ (1 <= K1)%Z /\ (0 <= K2)%Z /\
  super_init a d eta2 K1 K2 = inr (_filter e, _iteration e) /\
  _size e = stop /\ _s e = src.
Proof.
  unfold __init__.
  destruct (Z.ltb_spec stop 0);
    [split; [discriminate|intros (? & _); lia]|].
  destruct (Z.ltb_spec K1 1);
    [split; [discriminate|intros (_ & ? & _); lia]|].
  destruct (Z.ltb_spec K2 0);
    [split; [discriminate|intros (_ & _ & ? & _); lia]|].
  destruct (super_init a d eta2 K1 K2) as [x|[f it]]; cbn [fst].
  - split; [discriminate|]. intros (_ & _ & _ & Hs & _). discriminate.
  - split.
    + intros [= <-]. cbn. repeat split; assumption.
    + intros (_ & _ & _ & Hs & Hsz & Hsrc).
      destruct e as [f' it' sz' s']. cbn in *.
      injection Hs as -> ->. now subst.
Qed.

(** ** The loop that fills the window, in general *)

Lemma upcoming_step (src : source) (s : sample) (k : nat)
  (new : list sample) :
  gen src (pos src) = Some s ->
  upcoming (mkSource (gen src) (S (pos src))) k = Some new ->
  upcoming src (S k) = Some (s :: new).
Proof.
  intros Hg Hup. cbn [upcoming]. unfold next. rewrite Hg, Hup. reflexivity.
Qed.

(** Whatever the loop returns, it has taken a run of samples from the
    source, in order, and given them to the engine; it stops at a full
    window, having taken no more than the window missed, or at the end
    of the source with the window still not full. *)
Lemma fill_window_inv (fuel : nat) :
  forall (e e' : DigitalEstimator R) (r : exn + unit),
    fill_window fuel e = Some (r, e') ->
    exists new : list sample,
      upcoming (_s e) (length new) = Some new /\
      e' = fed e new /\
      length new
      <= _K1 (_filter e) + _K2 (_filter e)
         - _control_signal_in_buffer (_filter e) /\
      match r with
      | inl x =>
          x = StopIteration /\
          gen (_s e) (pos (_s e) + length new) = None /\
          full (_filter e') = false
      | inr _ => full (_filter e') = true
      end.
Proof.
  induction fuel as [|fuel IH]; intros e e' r Hrun; [discriminate|].
  cbn [fill_window] in Hrun.
  destruct (full (_filter e)) eqn:Hf; cbn [negb] in Hrun.
  - injection Hrun as <- <-. exists []. rewrite fed_nil.
    repeat split; [cbn; lia|exact Hf].
  - assert (Hlt : _control_signal_in_buffer (_filter e)
                  < _K1 (_filter e) + _K2 (_filter e)).
    { destruct (Nat.lt_ge_cases (_control_signal_in_buffer (_filter e))
                  (_K1 (_filter e) + _K2 (_filter e))) as [H|H];
        [exact H|].
      apply full_iff in H. congruence. }
    unfold next in Hrun.
    destruct (gen (_s e) (pos (_s e))) as [s|] eqn:Hg.
    + apply IH in Hrun.
      destruct Hrun as (new & Hup & He' & Hlen & Hr).
      rewrite fed_cons in He'. subst e'.
      cbn [_s _filter] in Hup, Hlen, Hr.
      exists (s :: new). split; [now apply upcoming_step|].
      split; [reflexivity|]. split.
      * unfold _control_signal_in_buffer in *. cbn in *.
        rewrite length_app in Hlen. cbn in Hlen. lia.
      * destruct r as [x|[]]; [|exact Hr].
        destruct Hr as (Hx & Hend & Hfull).
        split; [exact Hx|]. split; [|exact Hfull].
        cbn [gen pos length] in *. rewrite <- Hend. f_equal. lia.
    + injection Hrun as <- <-. exists []. rewrite fed_nil.
      split; [reflexivity|]. split; [reflexivity|].
      split; [cbn; lia|].
      split; [reflexivity|]. split; [|exact Hf].
      cbn. now rewrite Nat.add_0_r.
Qed.

(** The loop ends within as many steps as the window misses samples. *)
Lemma fill_window_terminates (fuel : nat) :
  forall e : DigitalEstimator R,
    _K1 (_filter e) + _K2 (_filter e)
    - _control_signal_in_buffer (_filter e) < fuel ->
    exists (r : exn + unit) (e' : DigitalEstimator R),
      fill_window fuel e = Some (r, e').
Proof.
  induction fuel as [|fuel IH]; intros e Hfuel; [lia|].
  cbn [fill_window].
  destruct (full (_filter e)) eqn:Hf; cbn [negb]; [eauto|].
  assert (Hlt : _control_signal_in_buffer (_filter e)
                < _K1 (_filter e) + _K2 (_filter e)).
  { destruct (Nat.lt_ge_cases (_control_signal_in_buffer (_filter e))
                (_K1 (_filter e) + _K2 (_filter e))) as [H|H];
      [exact H|].
    apply full_iff in H. congruence. }
  unfold next. destruct (gen (_s e) (pos (_s e))) as [s|]; [|eauto].
  apply IH. unfold _control_signal_in_buffer in *. cbn.
  rewrite length_app. cbn. lia.
Qed.

Lemma compute_batch_error (f f' : Filter R) (x : exn) :
  compute_batch zero add mul of_char f = (inl x, f') ->
  x = BufferUnderrunError /\ f' = f.
Proof.
  unfold compute_batch.
  destruct (negb (_control_signal_in_buffer f =? _K3 f));
    [|discriminate].
  intros [= <- <-]. split; reflexivity.
Qed.

Lemma same_engine_refl (f : Filter R) : same_engine f f.
Proof. unfold same_engine. repeat split. Qed.

Lemma same_engine_trans (f1 f2 f3 : Filter R) :
  same_engine f1 f2 -> same_engine f2 f3 -> same_engine f1 f3.
Proof.
  unfold same_engine. intros H1 H2.
  decompose [and] H1. decompose [and] H2.
  repeat split; congruence.
Qed.

Lemma compute_batch_same_engine (f f' : Filter R) (r : exn + unit) :
  compute_batch zero add mul of_char f = (r, f') -> same_engine f f'.
Proof.
  unfold compute_batch.
  destruct (negb (_control_signal_in_buffer f =? _K3 f));
    intros [= <- <-]; unfold same_engine; cbn; repeat split.
Qed.

Lemma fed_same_engine (e : DigitalEstimator R) (new : list sample) :
  same_engine (_filter e) (_filter (fed e new)).
Proof. unfold same_engine. cbn. repeat split. Qed.

(** ** One pull, in general *)

Lemma compute_batch_window (f : Filter R) :
  _control_signal_in_buffer f = _K1 f + _K2 f ->
  _control_signal_in_buffer (snd (compute_batch zero add mul of_char f))
  = _K2 f.
Proof.
  intros Hfull. rewrite compute_batch_ok by exact Hfull.
  unfold _control_signal_in_buffer in *. cbn [snd _control_signal].
  rewrite length_skipn. lia.
Qed.

(** A pull changes neither the engine's coefficients and sizes nor the
    cap, the counter and the upstream sequence, and the source only
    moves forward. *)
Lemma next_frame (fuel : nat) :
  forall (e e' : DigitalEstimator R) (r : exn + vec R),
    nxt fuel e = Some (r, e') ->
    same_engine (_filter e) (_filter e') /\
    _size e' = _size e /\
    _iteration e' = _iteration e /\
    gen (_s e') = gen (_s e) /\
    pos (_s e) <= pos (_s e').
Proof.
  induction fuel as [|fuel IH]; intros e e' r Hrun; [discriminate|].
  cbn [__next__] in Hrun.
  destruct (cap_exceeded e).
  { injection Hrun as <- <-. split; [apply same_engine_refl|].
    repeat split. lia. }
  destruct (empty (_filter e)); cbn [negb] in Hrun.
  2:{ unfold output in Hrun. injection Hrun as <- <-.
      unfold same_engine. cbn. repeat split. lia. }
  destruct (fill_window fuel e) as [[r1 e1]|] eqn:Hfill; [|discriminate].
  destruct (fill_window_inv _ _ Hfill) as (new & _ & -> & _ & _).
  destruct r1 as [x|[]].
  { injection Hrun as <- <-. split; [apply fed_same_engine|].
    cbn. repeat split. lia. }
  destruct (compute_batch zero add mul of_char (_filter (fed e new)))
    as [[x|[]] f'] eqn:Hcb.
  - injection Hrun as <- <-.
    split; [|cbn; repeat split; lia].
    eapply same_engine_trans; [apply fed_same_engine|].
    eapply compute_batch_same_engine, Hcb.
  - apply IH in Hrun. cbn [set_filter _filter _size _iteration _s] in Hrun.
    destruct Hrun as (He & Hsz & Hit & Hg & Hp).
    split.
    + eapply same_engine_trans; [apply fed_same_engine|].
      eapply same_engine_trans; [|exact He].
      eapply compute_batch_same_engine, Hcb.
    + cbn in *. repeat split; try assumption. lia.
Qed.

(** From a state the adapter can work from a pull returns, with a
    sample or with the end of the sequence, into such a state again, and
    it has taken no more samples than the window missed. *)
Lemma next_valid (fuel : nat) (e : DigitalEstimator R) :
  window_ok e ->
  _K1 (_filter e) + _K2 (_filter e)
  - _control_signal_in_buffer (_filter e) + 2 <= fuel ->
  exists (r : exn + vec R) (e' : DigitalEstimator R),
    nxt fuel e = Some (r, e') /\
    window_ok e' /\
    (r = inl StopIteration \/ exists u : vec R, r = inr u) /\
    pos (_s e')
    <= pos (_s e)
       + (_K1 (_filter e) + _K2 (_filter e)
          - _control_signal_in_buffer (_filter e)).
Proof.
  intros [HK1 Hcnt] Hfuel.
  destruct fuel as [|fuel]; [lia|].
  destruct (cap_exceeded e) eqn:Hcap.
  { exists (inl StopIteration), e. rewrite next_capped by exact Hcap.
    split; [reflexivity|]. split; [split; assumption|].
    split; [left; reflexivity|lia]. }
  destruct (_estimate (_filter e)) as [|u us] eqn:Hus.
  2:{ eexists _, _.
      split; [apply (@next_buffered e u us fuel Hcap Hus)|].
      split; [split; assumption|]. split; [right; eauto|cbn; lia]. }
  cbn [__next__]. rewrite Hcap. unfold empty at 1. rewrite Hus.
  cbn [negb].
  destruct (@fill_window_terminates fuel e) as (r1 & e1 & Hfill); [lia|].
  rewrite Hfill.
  destruct (fill_window_inv _ _ Hfill) as (new & _ & -> & Hlen & Hr).
  assert (Hok1 : window_ok (fed e new)).
  { split; [exact HK1|]. unfold _control_signal_in_buffer in *. cbn.
    rewrite length_app. lia. }
  destruct r1 as [x|[]].
  { destruct Hr as (-> & _ & _).
    eexists _, _. split; [reflexivity|]. split; [exact Hok1|].
    split; [left; reflexivity|]. cbn. lia. }
  apply full_iff in Hr.
  assert (Hfull : _control_signal_in_buffer (_filter (fed e new))
                  = _K1 (_filter (fed e new)) + _K2 (_filter (fed e new)))
    by (destruct Hok1; lia).
  pose proof (@compute_batch_estimate _ Hfull) as Hest.
  pose proof (@compute_batch_window _ Hfull) as Hwin.
  pose proof (@compute_batch_ok _ Hfull) as Hcb.
  destruct (compute_batch zero add mul of_char (_filter (fed e new)))
    as [r2 f'] eqn:Hcb'.
  assert (Hsame : same_engine (_filter (fed e new)) f')
    by (eapply compute_batch_same_engine, Hcb').
  injection Hcb as -> _. cbn [snd] in Hest, Hwin.
  destruct (_estimate f') as [|u us] eqn:Hus';
    [cbn in Hest; cbn in HK1; lia|].
  destruct fuel as [|fuel]; [lia|].
  eexists _, _.
  split; [apply (@next_buffered (set_filter (fed e new) f') u us fuel);
          [exact Hcap|exact Hus']|].
  split.
  { destruct Hsame as (_ & _ & _ & _ & _ & H1 & H2 & _).
    cbn in H1, H2, Hwin.
    split; cbn; unfold _control_signal_in_buffer in *; cbn; lia. }
  split; [right; eauto|cbn; lia].
Qed.

(** A pull whose cap is not exceeded ends in [StopIteration] only when
    the source has an end. *)
Lemma next_stop_source (fuel : nat) :
  forall (e e' : DigitalEstimator R),
    cap_exceeded e = false ->
    nxt fuel e = Some (inl StopIteration, e') ->
    ~ endless (_s e).
Proof.
  induction fuel as [|fuel IH]; intros e e' Hcap Hrun; [discriminate|].
  cbn [__next__] in Hrun. rewrite Hcap in Hrun.
  destruct (empty (_filter e)); cbn [negb] in Hrun;
    [|unfold output in Hrun; discriminate].
  destruct (fill_window fuel e) as [[r1 e1]|] eqn:Hfill; [|discriminate].
  destruct (fill_window_inv _ _ Hfill) as (new & _ & -> & _ & Hr).
  destruct r1 as [x|[]].
  { destruct Hr as (_ & Hend & _). intros He. exact (He _ Hend). }
  destruct (compute_batch zero add mul of_char (_filter (fed e new)))
    as [[x|[]] f'] eqn:Hcb.
  - apply compute_batch_error in Hcb. destruct Hcb as [-> _].
    discriminate.
  - apply IH in Hrun; [|exact Hcap]. exact Hrun.
Qed.

(** ** What pulls keep and what they never do *)

(** X3.  A pull, whatever its outcome, leaves the configuration as it
    was: the five coefficient matrices, the batch size and the
    lookahead, the numbers of states, controls and inputs, the cap and
    the sequence of the source; the source is only moved forward. *)
Theorem pull_keeps_configuration (fuel : nat) (e e' : DigitalEstimator R)
  (r : exn + vec R) :
  nxt fuel e = Some (r, e') ->
  (_Af (_filter e') = _Af (_filter e) /\
   _Ab (_filter e') = _Ab (_filter e) /\
   _Bf (_filter e') = _Bf (_filter e) /\
   _Bb (_filter e') = _Bb (_filter e) /\
   _WT (_filter e') = _WT (_filter e)) /\
  (batch_size (_filter e') = batch_size (_filter e) /\
   lookahead (_filter e') = lookahead (_filter e) /\
   number_of_states e' = number_of_states e /\
   number_of_controls e' = number_of_controls e /\
   number_of_inputs e' = number_of_inputs e) /\
  _size e' = _size e /\
  (gen (_s e') = gen (_s e) /\ pos (_s e) <= pos (_s e')).
Proof.
  intros Hrun. apply next_frame in Hrun.
  destruct Hrun as (He & Hsz & Hit & Hg & Hp).
  unfold same_engine in He. decompose [and] He.
  unfold batch_size, lookahead, number_of_states, number_of_controls,
    number_of_inputs.
  repeat split; assumption.
Qed.

(** X4.  From a state with K1 >= 1 and at most K1+K2 samples in the
    window a pull always returns, with at most as many steps as the
    window misses samples plus two, and with a sample or with
    [StopIteration]: the loop has filled the window before
    [compute_batch] runs, so that no [BufferUnderrunError] reaches the
    caller.  The state after the pull is again such a state, and the
    pull has taken no more samples from the source than the window
    missed. *)
Theorem pull_returns (fuel : nat) (e : DigitalEstimator R) :
  window_ok e ->
  _K1 (_filter e) + _K2 (_filter e)
  - _control_signal_in_buffer (_filter e) + 2 <= fuel ->
  exists (r : exn + vec R) (e' : DigitalEstimator R),
    nxt fuel e = Some (r, e') /\
    r <> inl BufferUnderrunError /\
    (r = inl StopIteration \/ exists u : vec R, r = inr u) /\
    window_ok e' /\
    pos (_s e')
    <= pos (_s e)
       + (_K1 (_filter e) + _K2 (_filter e)
          - _control_signal_in_buffer (_filter e)).
Proof.
  intros Hok Hfuel.
  destruct (next_valid Hok Hfuel) as (r & e' & Hrun & Hok' & Hr & Hpos).
  exists r, e'. split; [exact Hrun|]. split.
  - destruct Hr as [->|[u ->]]; discriminate.
  - repeat split; try assumption; apply Hok'.
Qed.

(** X5.  With the default cap 0 the adapter never ends the sequence on
    its own: if any of [n] successive pulls ends in [StopIteration], the
    source has an end. *)
Theorem no_cap_stop_is_exhaustion (fuel n : nat) :
  forall (e e' : DigitalEstimator R) (rs : list (exn + vec R)),
    _size e = 0%Z ->
    pulls zero add mul of_char fuel n e = Some (rs, e') ->
    In (inl StopIteration) rs ->
    ~ endless (_s e).
Proof.
  induction n as [|n IH]; intros e e' rs Hsz Hrun Hin.
  { injection Hrun as <- _. destruct Hin. }
  cbn [pulls] in Hrun.
  destruct (nxt fuel e) as [[r e1]|] eqn:Hnext; [|discriminate].
  destruct (pulls zero add mul of_char fuel n e1) as [[rs1 e2]|] eqn:Hrest;
    [|discriminate].
  injection Hrun as <- <-.
  destruct Hin as [->|Hin].
  - eapply next_stop_source; [|exact Hnext].
    now apply cap_default_never_exceeded.
  - destruct (next_frame _ _ Hnext) as (_ & Hsz1 & _ & Hg & _).
    intros He. eapply (IH e1); [congruence|exact Hrest|exact Hin|].
    intros i. rewrite Hg. apply He.
Qed.

Lemma drained_eq (e : DigitalEstimator R) :
  _estimate (_filter e) = [] ->
  set_filter e (set_estimate (_filter e) []) = e.
Proof.
  destruct e as [f it sz src]. destruct f. cbn. now intros ->.
Qed.

(** Buffered samples leave one per pull, in order, while the cap is
    not exceeded. *)
Lemma pulls_buffered (us : list (vec R)) :
  forall (e : DigitalEstimator R) (fuel : nat),
    cap_exceeded e = false ->
    _estimate (_filter e) = us ->
    pulls zero add mul of_char (S fuel) (length us) e
    = Some (map inr us, set_filter e (set_estimate (_filter e) [])).
Proof.
  induction us as [|u us IH]; intros e fuel Hcap Hus.
  - cbn. now rewrite drained_eq.
  - cbn [length pulls map].
    rewrite (@next_buffered e u us fuel Hcap Hus).
    rewrite (IH (set_filter e (set_estimate (_filter e) us)) fuel);
      [reflexivity|exact Hcap|reflexivity].
Qed.

(** X6.  With the default cap 0, buffered output samples leave in the
    order in which the batch resolved them, one per pull; these pulls
    take nothing from the source and do not touch the window or the
    forward state, and after as many pulls as there were samples none
    is buffered. *)
Theorem buffered_samples_in_order (us : list (vec R))
  (e : DigitalEstimator R) (fuel : nat) :
  _size e = 0%Z ->
  _estimate (_filter e) = us ->
  exists e' : DigitalEstimator R,
    pulls zero add mul of_char (S fuel) (length us) e
    = Some (map inr us, e') /\
    _estimate (_filter e') = [] /\
    _control_signal (_filter e') = _control_signal (_filter e) /\
    _mf (_filter e') = _mf (_filter e) /\
    _s e' = _s e.
Proof.
  intros Hsz Hus.
  exists (set_filter e (set_estimate (_filter e) [])).
  split; [|repeat split].
  apply pulls_buffered; [|exact Hus].
  now apply cap_default_never_exceeded.
Qed.

(** A pull on an exhausted source with a window that is not full ends
    in [StopIteration] and changes nothing. *)
Lemma next_exhausted_fix (e : DigitalEstimator R) (fuel : nat) :
  cap_exceeded e = false ->
  empty (_filter e) = true ->
  full (_filter e) = false ->
  gen (_s e) (pos (_s e)) = None ->
  nxt (S (S fuel)) e = Some (inl StopIteration, e).
Proof.
  intros Hcap Hemp Hfull Hend.
  cbn [__next__ fill_window]. rewrite Hcap, Hemp, Hfull. cbn [negb].
  unfold next. now rewrite Hend.
Qed.

(** X7.  The end of the source is final: when the source runs out
    before the window is full, that pull and every later one end in
    [StopIteration], and after the first of them the state no longer
    changes. *)
Theorem exhaustion_is_final (e : DigitalEstimator R) (k fuel n : nat)
  (new : list sample) :
  cap_exceeded e = false ->
  empty (_filter e) = true ->
  upcoming (_s e) k = Some new ->
  gen (_s e) (pos (_s e) + k) = None ->
  _control_signal_in_buffer (_filter e) + k
  < _K1 (_filter e) + _K2 (_filter e) ->
  k + 1 < fuel ->
  pulls zero add mul of_char fuel (S n) e
  = Some (repeat (inl StopIteration) (S n), fed e new).
Proof.
  intros Hcap Hemp Hup Hend Hcnt Hfuel.
  assert (Hlen : length new = k) by (eapply upcoming_length, Hup).
  destruct fuel as [|[|fuel]]; try lia.
  assert (Hfirst : nxt (S (S fuel)) e = Some (inl StopIteration, fed e new)).
  { cbn [__next__]. rewrite Hcap, Hemp. cbn [negb].
    now rewrite (@fill_window_exhausted k (S fuel) e new)
      by (assumption || lia). }
  assert (Hfix : nxt (S (S fuel)) (fed e new)
                 = Some (inl StopIteration, fed e new)).
  { apply next_exhausted_fix.
    - exact Hcap.
    - exact Hemp.
    - destruct (full (_filter (fed e new))) eqn:Hf; [|reflexivity].
      apply full_iff in Hf. unfold _control_signal_in_buffer in *.
      cbn in Hf. rewrite length_app in Hf. lia.
    - cbn. now rewrite Hlen. }
  cbn [pulls repeat]. rewrite Hfirst.
  assert (Hrest : pulls zero add mul of_char (S (S fuel)) n (fed e new)
                  = Some (repeat (inl StopIteration) n, fed e new)).
  { clear Hfirst. induction n as [|n IH]; [reflexivity|].
    cbn [pulls repeat]. now rewrite Hfix, IH. }
  now rewrite Hrest.
Qed.

(** ** Loops over the estimator *)

Local Abbreviation iterate := (iterate_number_of_times zero add mul of_char).
Local Abbreviation until_stop := (next_until_stop zero add mul of_char).

(** X8.  Calling [iterate_number_of_times] for [n] pulls and then, when
    that call has returned, for [m] more is one call for [n + m] pulls;
    when the first call ends in an exception, so does the long one, in
    the same state. *)
Theorem iterate_number_of_times_add (fuel n m : nat) :
  forall e : DigitalEstimator R,
    iterate fuel e (n + m)
    = match iterate fuel e n with
      | Some (inr _, e') => iterate fuel e' m
      | other => other
      end.
Proof.
  induction n as [|n IH]; intros e; [reflexivity|].
  cbn [Nat.add iterate_number_of_times].
  destruct (nxt fuel e) as [[[x|u] e1]|]; try reflexivity.
  apply IH.
Qed.

(** X9.  On a source without end and with the default cap 0,
    [iterate_number_of_times] returns normally for every number of
    pulls, from every state with K1 >= 1 and at most K1+K2 samples in
    the window. *)
Theorem iterate_number_of_times_completes (fuel n : nat) :
  forall e : DigitalEstimator R,
    window_ok e ->
    _size e = 0%Z ->
    endless (_s e) ->
    _K1 (_filter e) + _K2 (_filter e) + 2 <= fuel ->
    exists e' : DigitalEstimator R,
      iterate fuel e n = Some (inr tt, e') /\
      window_ok e' /\
      same_engine (_filter e) (_filter e').
Proof.
  induction n as [|n IH]; intros e Hok Hsz Hend Hfuel.
  { exists e. split; [reflexivity|]. split; [exact Hok|].
    apply same_engine_refl. }
  destruct (@next_valid fuel e Hok) as (r & e1 & Hrun & Hok1 & Hr & _);
    [lia|].
  destruct (next_frame _ _ Hrun) as (He & Hsz1 & _ & Hg & _).
  cbn [iterate_number_of_times]. rewrite Hrun.
  destruct Hr as [->|[u ->]].
  { exfalso. eapply next_stop_source; [|exact Hrun|exact Hend].
    now apply cap_default_never_exceeded. }
  destruct (IH e1) as (e' & Hit & Hok' & He'); try assumption.
  - congruence.
  - intros i. rewrite Hg. apply Hend.
  - unfold same_engine in He. decompose [and] He. lia.
  - exists e'. split; [exact Hit|]. split; [exact Hok'|].
    eapply same_engine_trans; eassumption.
Qed.

(** *** A finite recording *)

Lemma upcoming_some_iff (k : nat) :
  forall src : source,
    (exists l : list sample, upcoming src k = Some l)
    <-> (forall i : nat, i < k -> gen src (pos src + i) <> None).
Proof.
  induction k as [|k IH]; intros src.
  { split; [intros _ i Hi; lia|intros _; now exists []]. }
  cbn [upcoming]. unfold next.
  split.
  - intros [l Hl] i Hi.
    destruct (gen src (pos src)) as [s|] eqn:Hg; [|discriminate].
    destruct (upcoming _ k) as [l'|] eqn:Hup; [|discriminate].
    destruct i as [|j]; [rewrite Nat.add_0_r; congruence|].
    replace (pos src + S j) with (S (pos src) + j) by lia.
    apply (proj1 (IH (mkSource (gen src) (S (pos src))))); [eauto|lia].
  - intros Hall.
    destruct (gen src (pos src)) as [s|] eqn:Hg.
    + destruct (proj2 (IH (mkSource (gen src) (S (pos src))))) as [l' Hl'].
      * intros i Hi. cbn [gen pos]. rewrite Nat.add_succ_l, <- Nat.add_succ_r.
        apply Hall. lia.
      * rewrite Hl'. now exists (s :: l').
    + exfalso. apply (Hall 0); [lia|]. now rewrite Nat.add_0_r.
Qed.

Lemma remaining_prefix (src : source) (len k : nat) :
  remaining src len -> k <= len ->
  exists l : list sample, upcoming src k = Some l.
Proof.
  intros [Hup _] Hk. apply upcoming_some_iff.
  intros i Hi. apply (proj1 (upcoming_some_iff len src) Hup). lia.
Qed.

Lemma remaining_advance (src : source) (len k : nat) :
  remaining src len -> k <= len -> remaining (advance src k) (len - k).
Proof.
  intros [Hup Hend] Hk. split.
  - apply upcoming_some_iff. intros i Hi. cbn.
    replace (pos src + k + i) with (pos src + (k + i)) by lia.
    apply (proj1 (upcoming_some_iff len src) Hup). lia.
  - cbn. rewrite <- Hend. f_equal. lia.
Qed.

(** The loop passes buffered samples on before anything else. *)
Lemma until_stop_buffered (us : list (vec R)) :
  forall (e : DigitalEstimator R) (fuel steps : nat),
    cap_exceeded e = false ->
    _estimate (_filter e) = us ->
    until_stop (S fuel) (length us + steps) e
    = match until_stop (S fuel) steps
              (set_filter e (set_estimate (_filter e) [])) with
      | Some (inr vs, e') => Some (inr (us ++ vs), e')
      | other => other
      end.
Proof.
  induction us as [|u us IH]; intros e fuel steps Hcap Hus.
  - rewrite drained_eq by exact Hus. cbn [length Nat.add app].
    destruct (until_stop (S fuel) steps e) as [[[x|vs] e']|]; reflexivity.
  - cbn [length Nat.add next_until_stop].
    rewrite (@next_buffered e u us fuel Hcap Hus).
    rewrite (IH (set_filter e (set_estimate (_filter e) us)) fuel steps);
      [|exact Hcap|reflexivity].
    cbn [set_filter set_estimate _filter _estimate _iteration _size _s
         _Af _Ab _Bf _Bb _WT _control_signal _K1 _K2 _N _M _L _mf].
    destruct (until_stop (S fuel) steps _) as [[[x|vs] e']|]; reflexivity.
Qed.

(** The pull that computes a batch. *)
Lemma next_refill (e : DigitalEstimator R) (new : list sample)
  (fuel : nat) :
  cap_exceeded e = false ->
  _estimate (_filter e) = [] ->
  window_ok e ->
  upcoming (_s e)
    (_K1 (_filter e) + _K2 (_filter e)
     - _control_signal_in_buffer (_filter e)) = Some new ->
  _K1 (_filter e) + _K2 (_filter e)
  - _control_signal_in_buffer (_filter e) + 2 <= fuel ->
  exists (f' : Filter R) (u : vec R) (us : list (vec R)),
    nxt fuel e
    = Some (inr u, set_filter (fed e new) (set_estimate f' us)) /\
    _estimate f' = u :: us /\
    length (u :: us) = _K1 (_filter e) /\
    _control_signal_in_buffer f' = _K2 (_filter e) /\
    same_engine (_filter e) f'.
Proof.
  intros Hcap Hest [HK1 Hcnt] Hup Hfuel.
  set (k := _K1 (_filter e) + _K2 (_filter e)
            - _control_signal_in_buffer (_filter e)) in *.
  assert (Hlen : length new = k) by (eapply upcoming_length, Hup).
  assert (Hfull : _control_signal_in_buffer (_filter (fed e new))
                  = _K1 (_filter (fed e new)) + _K2 (_filter (fed e new))).
  { unfold _control_signal_in_buffer in *. cbn.
    rewrite length_app, Hlen. lia. }
  pose proof (@compute_batch_estimate _ Hfull) as Hest'.
  pose proof (@compute_batch_window _ Hfull) as Hwin.
  pose proof (@compute_batch_ok _ Hfull) as Hok.
  destruct (compute_batch zero add mul of_char (_filter (fed e new)))
    as [r f'] eqn:Hcb.
  assert (Hsame : same_engine (_filter e) f').
  { eapply same_engine_trans; [apply fed_same_engine|].
    eapply compute_batch_same_engine, Hcb. }
  injection Hok as Hr _. cbn [snd] in Hest', Hwin.
  cbn [fed _filter set_control_signal _K1 _K2] in Hest', Hwin.
  destruct (_estimate f') as [|u us] eqn:Hus; [cbn in Hest'; lia|].
  exists f', u, us.
  split; [|split; [exact Hus|split; [exact Hest'|split; assumption]]].
  destruct fuel as [|fuel]; [lia|].
  cbn [__next__]. rewrite Hcap.
  unfold empty at 1. rewrite Hest. cbn [negb].
  rewrite (@fill_window_full k fuel e new) by (assumption || lia).
  rewrite Hcb, Hr.
  destruct fuel as [|fuel]; [lia|].
  rewrite (@next_buffered (set_filter (fed e new) f') u us fuel);
    [reflexivity | exact Hcap | exact Hus].
Qed.

(** *** The number of estimates of a recording *)

Lemma until_stop_count (T : nat) :
  forall (e : DigitalEstimator R) (len fuel steps : nat),
    _control_signal_in_buffer (_filter e) + len = T ->
    cap_exceeded e = false ->
    _estimate (_filter e) = [] ->
    window_ok e ->
    remaining (_s e) len ->
    _K1 (_filter e) + _K2 (_filter e) + 2 <= fuel ->
    _K1 (_filter e)
    * ((_control_signal_in_buffer (_filter e) + len - _K2 (_filter e))
       / _K1 (_filter e)) < steps ->
    exists (us : list (vec R)) (e' : DigitalEstimator R),
      until_stop fuel steps e = Some (inr us, e') /\
      length us
      = _K1 (_filter e)
        * ((_control_signal_in_buffer (_filter e) + len - _K2 (_filter e))
           / _K1 (_filter e)).
Proof.
  induction T as [T IH] using lt_wf_ind.
  intros e len fuel steps HT Hcap Hest Hok Hrem Hfuel Hsteps.
  pose proof Hok as [HK1 Hcnt].
  set (K1 := _K1 (_filter e)) in *.
  set (K2 := _K2 (_filter e)) in *.
  set (c := _control_signal_in_buffer (_filter e)) in *.
  destruct steps as [|steps]; [lia|].
  destruct (Nat.lt_ge_cases (c + len) (K1 + K2)) as [Hshort|Hlong].
  - (* the source ends before the window is full *)
    destruct Hrem as [[l Hl] Hend].
    assert (Hrun : nxt fuel e = Some (inl StopIteration, fed e l)).
    { destruct fuel as [|fuel]; [lia|].
      cbn [__next__]. rewrite Hcap. unfold empty. rewrite Hest.
      cbn [negb].
      now rewrite (@fill_window_exhausted len fuel e l)
        by (assumption || (fold c K1 K2; lia)). }
    exists [], (fed e l). cbn [next_until_stop]. rewrite Hrun.
    split; [reflexivity|].
    rewrite Nat.div_small by lia. cbn [length]. lia.
  - (* the window can be filled: one batch, then the rest *)
    set (need := K1 + K2 - c) in *.
    destruct (@remaining_prefix (_s e) len need Hrem) as [new Hnew];
      [lia|].
    assert (Hlen : length new = need) by (eapply upcoming_length, Hnew).
    destruct (@next_refill e new fuel Hcap Hest Hok Hnew)
      as (f' & u & us & Hrun & Hus & Hlus & Hwin & Hsame);
      [fold c K1 K2; lia|].
    pose proof Hsame as (_ & _ & _ & _ & _ & HK1' & HK2' & _).
    fold K1 in HK1', Hlus. fold K2 in HK2', Hwin.
    set (e1 := set_filter (fed e new) (set_estimate f' us)) in *.
    set (e2 := set_filter e1 (set_estimate (_filter e1) [])).
    set (len2 := len - need).
    assert (Hdiv : (c + len - K2) / K1 = S (len2 / K1)).
    { replace (c + len - K2) with (1 * K1 + len2) by (unfold len2; lia).
      rewrite Nat.div_add_l by lia. reflexivity. }
    rewrite Hdiv, Nat.mul_succ_r in Hsteps |- *.
    cbn [length] in Hlus.
    destruct (IH (K2 + len2) ltac:(unfold len2; lia) e2 len2 fuel
                 (steps - length us))
      as (us2 & e' & Hrest & Hlen2).
    + unfold e2, e1, _control_signal_in_buffer in *. cbn. lia.
    + exact Hcap.
    + reflexivity.
    + split; unfold e2, e1, _control_signal_in_buffer in *; cbn; lia.
    + unfold e2, e1, len2. cbn [set_filter fed _s]. rewrite Hlen.
      apply remaining_advance; [exact Hrem|lia].
    + unfold e2, e1. cbn. lia.
    + unfold e2, e1, _control_signal_in_buffer in *. cbn.
      rewrite HK1', HK2', Hwin.
      replace (K2 + len2 - K2) with len2 by lia. lia.
    + assert (He2 : _K1 (_filter e2)
                    * ((_control_signal_in_buffer (_filter e2) + len2
                        - _K2 (_filter e2)) / _K1 (_filter e2))
                    = K1 * (len2 / K1)).
      { unfold e2, e1, _control_signal_in_buffer in *. cbn.
        rewrite HK1', HK2', Hwin.
        now replace (K2 + len2 - K2) with len2 by lia. }
      rewrite He2 in Hlen2.
      exists (u :: us ++ us2), e'.
      cbn [next_until_stop]. rewrite Hrun.
      destruct fuel as [|fuel]; [lia|].
      replace steps with (length us + (steps - length us)) by lia.
      rewrite (@until_stop_buffered us e1 fuel (steps - length us));
        [|exact Hcap|reflexivity].
      fold e2. rewrite Hrest.
      split; [reflexivity|].
      cbn [length]. rewrite length_app, Hlen2. lia.
Qed.

(** X10.  A [for] loop over an estimator with the default cap 0 and a
    source that holds [len] more samples ends normally, and it has
    printed K1 * floor((c + len - K2) / K1) estimates, c being the
    number of samples already in the window (0 after construction):
    whole batches only, and none for the last K2 samples and the
    samples of an incomplete batch. *)
Theorem for_loop_output_count (e : DigitalEstimator R)
  (len fuel steps : nat) :
  window_ok e ->
  _estimate (_filter e) = [] ->
  _size e = 0%Z ->
  remaining (_s e) len ->
  _K1 (_filter e) + _K2 (_filter e) + 2 <= fuel ->
  _K1 (_filter e)
  * ((_control_signal_in_buffer (_filter e) + len - _K2 (_filter e))
     / _K1 (_filter e)) < steps ->
  exists (us : list (vec R)) (e' : DigitalEstimator R),
    for_print zero add mul of_char fuel steps e = Some (inr us, e') /\
    length us
    = _K1 (_filter e)
      * ((_control_signal_in_buffer (_filter e) + len - _K2 (_filter e))
         / _K1 (_filter e)).
Proof.
  intros Hok Hest Hsz Hrem Hfuel Hsteps.
  unfold for_print, __iter__.
  eapply until_stop_count; try eassumption; [reflexivity|].
  now apply cap_default_never_exceeded.
Qed.

End Properties.


(** * The theorems on the instance over the integers *)

Module Witness.

Import Example.

Lemma compute_batch_full_window_witness :
  _control_signal_in_buffer (engine window [] [0; 0]%Z) = 2 + 1 /\
  exists f' : Filter Z,
    compute (engine window [] [0; 0]%Z) = (inr tt, f') /\
    length (_estimate f') = 2 /\
    nth_error (_estimate f') 0 = Some [11%Z] /\
    nth_error (_estimate f') 1 = Some [11%Z].
Proof.
  split; [reflexivity|].
  destruct (@compute_batch_full_window Z 0%Z Z.add Z.mul of_char
              (engine window [] [0; 0]%Z) eq_refl)
    as (_ & _ & _ & _ & f' & Hcb & Hlen & Hnth).
  exists f'. split; [exact Hcb|]. split; [exact Hlen|]. split.
  - apply (Hnth 1). cbn. lia.
  - apply (Hnth 2). cbn. lia.
Defined.

Lemma compute_batch_underrun_witness :
  _control_signal_in_buffer (engine [[1; 0]%Z] [] [5; 6]%Z) < 2 + 1 /\
  fst (compute (engine [[1; 0]%Z] [] [5; 6]%Z)) = inl BufferUnderrunError /\
  _mf (snd (compute (engine [[1; 0]%Z] [] [5; 6]%Z))) = [5; 6]%Z.
Proof.
  assert (H : _control_signal_in_buffer (engine [[1; 0]%Z] [] [5; 6]%Z)
              < 2 + 1) by (cbn; lia).
  split; [exact H|].
  destruct (@compute_batch_underrun Z 0%Z Z.add Z.mul of_char
              (engine [[1; 0]%Z] [] [5; 6]%Z) H) as (Hr & Hmf & _).
  split; [exact Hr|exact Hmf].
Defined.

Lemma init_rejects_bad_sizes_witness :
  (0 < 1 \/ 3 < 0)%Z /\
  exists x : exn,
    fst (__init__ base_init (source_of_list window) tt tt 10%Z 0 3 0)
    = inl x /\
    ConfigurationError x = true.
Proof.
  assert (H : (0 < 1 \/ 3 < 0)%Z) by (left; reflexivity).
  split; [exact H|].
  exact (@init_rejects_bad_sizes Z unit unit base_init
           (source_of_list window) tt tt 10%Z 0%Z 3%Z 0%Z H).
Defined.

Lemma init_rejects_negative_cap_witness :
  (-1 < 0)%Z /\
  __init__ base_init (source_of_list window) tt tt 10%Z 2 1 (-1)
  = (inl (Raised "stop_after_number_of_iterations must be non negative"),
     []).
Proof.
  split; [reflexivity|].
  exact (@init_rejects_negative_cap Z unit unit base_init
           (source_of_list window) tt tt 10%Z 2%Z 1%Z (-1)%Z eq_refl).
Defined.

Lemma capped_pulls_stop_witness :
  _estimate (_filter capped) = [[7%Z]] /\
  (_size capped <> 0)%Z /\
  (_size capped < _iteration capped)%Z /\
  pull 4 capped = Some (inl StopIteration, capped) /\
  pulls 0%Z Z.add Z.mul of_char 4 3 capped
  = Some ([inl StopIteration; inl StopIteration; inl StopIteration], capped).
Proof.
  assert (Hnz : (_size capped <> 0)%Z) by discriminate.
  assert (Hlt : (_size capped < _iteration capped)%Z) by reflexivity.
  split; [reflexivity|]. split; [exact Hnz|]. split; [exact Hlt|].
  exact (@capped_pulls_stop Z 0%Z Z.add Z.mul of_char capped 3 3 Hnz Hlt).
Defined.

Lemma next_propagates_exhaustion_witness :
  cap_exceeded starved = false /\
  empty (_filter starved) = true /\
  upcoming (_s starved) 2 = Some [[1; 0]; [0; 1]]%Z /\
  gen (_s starved) (pos (_s starved) + 2) = None /\
  _control_signal_in_buffer (_filter starved) + 2 < 2 + 1 /\
  pull 4 starved
  = Some (inl StopIteration, fed starved [[1; 0]; [0; 1]]%Z).
Proof.
  assert (Hcnt : _control_signal_in_buffer (_filter starved) + 2 < 2 + 1)
    by (cbn; lia).
  assert (Hfuel : 2 + 1 < 4) by lia.
  repeat (split; [first [reflexivity | exact Hcnt]|]).
  exact (@next_propagates_exhaustion Z 0%Z Z.add Z.mul of_char starved
           2 4 [[1; 0]; [0; 1]]%Z eq_refl eq_refl eq_refl eq_refl
           Hcnt Hfuel).
Defined.

Lemma next_pull_witness :
  cap_exceeded buffered = false /\
  cap_exceeded streaming = false /\
  pull 1 buffered
  = Some (inr [7%Z],
          set_filter buffered (set_estimate (_filter buffered) [[8%Z]])) /\
  exists (f' : Filter Z) (us : list (vec Z)),
    compute (_filter (fed streaming window)) = (inr tt, f') /\
    _estimate f' = [11%Z] :: us /\
    pull 5 streaming
    = Some (inr [11%Z],
            set_filter (fed streaming window) (set_estimate f' us)).
Proof.
  split; [reflexivity|]. split; [reflexivity|]. split.
  - exact (proj1 (@next_pull Z 0%Z Z.add Z.mul of_char buffered eq_refl)
             [7%Z] [[8%Z]] 0 eq_refl).
  - assert (H1 : 1 <= _K1 (_filter streaming)) by (cbn; lia).
    assert (H2 : _control_signal_in_buffer (_filter streaming)
                 <= _K1 (_filter streaming) + _K2 (_filter streaming))
      by (cbn; lia).
    assert (H3 : _K1 (_filter streaming) + _K2 (_filter streaming)
                 - _control_signal_in_buffer (_filter streaming) + 2 <= 5)
      by (cbn; lia).
    destruct (proj2 (@next_pull Z 0%Z Z.add Z.mul of_char streaming eq_refl)
                window 5 eq_refl H1 H2 eq_refl H3)
      as (f' & u & us & Hcb & Hus & Hrun).
    assert (Hu : u = [11%Z]).
    { change (compute (_filter (fed streaming window)) = (inr tt, f'))
        in Hcb.
      apply (f_equal (fun p => hd [] (_estimate (snd p)))) in Hcb.
      cbn [snd] in Hcb. rewrite Hus in Hcb. cbn [hd] in Hcb.
      symmetry. exact Hcb. }
    exists f', us. rewrite <- Hu.
    split; [exact Hcb|]. split; [exact Hus|exact Hrun].
Defined.

Lemma zero_stream_dummy (M : nat) :
  zero_stream (dummy_control_sequence_signal M).
Proof.
  intros i s H. cbn in H. injection H as <-.
  induction M; cbn; constructor; auto.
Qed.

Lemma endless_dummy (M : nat) : endless (dummy_control_sequence_signal M).
Proof. intros i. discriminate. Qed.

Lemma zero_stream_zero_output_witness :
  1 <= _K1 (_filter silent) /\
  zero_stream (_s silent) /\
  _K1 (_filter silent) + _K2 (_filter silent) + 2 <= 5 /\
  exists e' : DigitalEstimator Z,
    pulls 0%Z Z.add Z.mul of_char 5 4 silent
    = Some ([inr [0%Z]; inr [0%Z]; inr [0%Z]; inr [0%Z]], e').
Proof.
  assert (H1 : 1 <= _K1 (_filter silent)) by (cbn; lia).
  assert (H2 : _K1 (_filter silent) + _K2 (_filter silent) + 2 <= 5)
    by (cbn; lia).
  split; [exact H1|]. split; [exact (@zero_stream_dummy 2)|].
  split; [exact H2|].
  destruct (@zero_stream_zero_output Z 0%Z Z.add Z.mul of_char
              eq_refl Z.mul_0_r eq_refl silent 4 5
              H1 eq_refl eq_refl eq_refl (@zero_stream_dummy 2) H2)
    as (rs & e' & Hrun & _ & _ & Hall).
  exists e'. rewrite Hrun, (Hall eq_refl (@endless_dummy 2)). reflexivity.
Defined.

(** C7 as stated fails when the control bit 0 enters the arithmetic
    as -1: on the all-zero stream, from the initial state with zero
    forward state, the estimator returns samples that are not zero. *)
Lemma zero_stream_counterexample :
  _control_signal (_filter silent) = [] /\
  _estimate (_filter silent) = [] /\
  _mf (_filter silent) = zeros 0%Z (_N (_filter silent)) /\
  (exists e' : DigitalEstimator Z,
     pulls 0%Z Z.add Z.mul of_char_pm 5 4 silent
     = Some ([inr [-17]; inr [-15]; inr [-24]; inr [-24]]%Z, e')) /\
  ~ (exists (rs : list (exn + vec Z)) (e' : DigitalEstimator Z),
       pulls 0%Z Z.add Z.mul of_char_pm 5 4 silent = Some (rs, e') /\
       Forall (fun r => r = inl StopIteration \/ r = inr [0%Z]) rs).
Proof.
  split; [reflexivity|]. split; [reflexivity|]. split; [reflexivity|].
  split; [eexists; vm_compute; reflexivity|].
  intros (rs & e' & Hrun & Hall).
  vm_compute in Hrun. injection Hrun as <- _.
  apply Forall_cons_iff in Hall. destruct Hall as [[H|H] _]; discriminate H.
Qed.

(** C4 as stated fails on a state whose cap is exceeded: an output
    sample is buffered, yet no pull returns it, whatever the fuel; a
    pull ends in [StopIteration] and leaves the sample where it is.  It
    also fails on a state without buffered output whose source ends
    before the window is full: no pull returns a sample. *)
Lemma next_pull_counterexample :
  (cap_exceeded capped = true /\
   _estimate (_filter capped) = [[7%Z]] /\
   pull 4 capped = Some (inl StopIteration, capped) /\
   forall fuel : nat,
     ~ exists (u : vec Z) (e' : DigitalEstimator Z),
         pull fuel capped = Some (inr u, e')) /\
  (cap_exceeded starved = false /\
   _estimate (_filter starved) = [] /\
   pull 4 starved
   = Some (inl StopIteration, fed starved [[1; 0]; [0; 1]]%Z)).
Proof.
  split.
  - split; [reflexivity|]. split; [reflexivity|]. split; [reflexivity|].
    intros [|fuel] (u & e' & H); discriminate H.
  - repeat split.
Qed.

(** ** The further properties on the instance *)

Lemma pull_keeps_configuration_witness :
  pull 5 streaming
  = Some (inr [11%Z],
          set_filter (fed streaming window)
            (set_estimate (snd (compute (_filter (fed streaming window))))
               [[11%Z]])) /\
  number_of_states
    (set_filter (fed streaming window)
       (set_estimate (snd (compute (_filter (fed streaming window))))
          [[11%Z]]))
  = number_of_states streaming /\
  pos (_s streaming) <= 3.
Proof.
  assert (H : pull 5 streaming
              = Some (inr [11%Z],
                      set_filter (fed streaming window)
                        (set_estimate
                           (snd (compute (_filter (fed streaming window))))
                           [[11%Z]]))) by reflexivity.
  split; [exact H|].
  destruct (@pull_keeps_configuration Z 0%Z Z.add Z.mul of_char 5
              streaming _ _ H) as (_ & (_ & _ & Hn & _) & _ & _ & Hp).
  split; [exact Hn|exact Hp].
Defined.

Lemma pull_returns_witness :
  window_ok starved /\
  exists (r : exn + vec Z) (e' : DigitalEstimator Z),
    pull 5 starved = Some (r, e') /\
    r <> inl BufferUnderrunError /\
    window_ok e' /\
    pos (_s e') <= 3.
Proof.
  assert (Hok : window_ok starved) by (split; cbn; lia).
  assert (Hfuel : _K1 (_filter starved) + _K2 (_filter starved)
                  - _control_signal_in_buffer (_filter starved) + 2 <= 5)
    by (cbn; lia).
  split; [exact Hok|].
  destruct (@pull_returns Z 0%Z Z.add Z.mul of_char 5 starved Hok Hfuel)
    as (r & e' & Hrun & Hne & _ & Hok' & Hpos).
  exists r, e'. repeat split; try assumption; apply Hok'.
Defined.

Lemma no_cap_stop_is_exhaustion_witness :
  _size starved = 0%Z /\
  pulls 0%Z Z.add Z.mul of_char 4 1 starved
  = Some ([inl StopIteration], fed starved [[1; 0]; [0; 1]]%Z) /\
  ~ endless (_s starved).
Proof.
  split; [reflexivity|]. split; [reflexivity|].
  exact (@no_cap_stop_is_exhaustion Z 0%Z Z.add Z.mul of_char 4 1
           starved _ _ eq_refl eq_refl (or_introl eq_refl)).
Defined.

Lemma buffered_samples_in_order_witness :
  _size buffered = 0%Z /\
  _estimate (_filter buffered) = [[7]; [8]]%Z /\
  exists e' : DigitalEstimator Z,
    pulls 0%Z Z.add Z.mul of_char 1 2 buffered
    = Some ([inr [7%Z]; inr [8%Z]], e') /\
    _estimate (_filter e') = [] /\
    _s e' = _s buffered.
Proof.
  split; [reflexivity|]. split; [reflexivity|].
  destruct (@buffered_samples_in_order Z 0%Z Z.add Z.mul of_char
              [[7]; [8]]%Z buffered 0 eq_refl eq_refl)
    as (e' & Hrun & Hest & _ & _ & Hsrc).
  exists e'. split; [exact Hrun|]. split; [exact Hest|exact Hsrc].
Defined.

Lemma exhaustion_is_final_witness :
  cap_exceeded starved = false /\
  empty (_filter starved) = true /\
  upcoming (_s starved) 2 = Some [[1; 0]; [0; 1]]%Z /\
  gen (_s starved) (pos (_s starved) + 2) = None /\
  pulls 0%Z Z.add Z.mul of_char 4 3 starved
  = Some ([inl StopIteration; inl StopIteration; inl StopIteration],
          fed starved [[1; 0]; [0; 1]]%Z).
Proof.
  assert (Hcnt : _control_signal_in_buffer (_filter starved) + 2
                 < _K1 (_filter starved) + _K2 (_filter starved))
    by (cbn; lia).
  assert (Hfuel : 2 + 1 < 4) by lia.
  repeat (split; [reflexivity|]).
  exact (@exhaustion_is_final Z 0%Z Z.add Z.mul of_char starved 2 4 2
           [[1; 0]; [0; 1]]%Z eq_refl eq_refl eq_refl eq_refl Hcnt Hfuel).
Defined.

Lemma iterate_number_of_times_completes_witness :
  window_ok silent /\
  _size silent = 0%Z /\
  endless (_s silent) /\
  exists e' : DigitalEstimator Z,
    iterate_number_of_times 0%Z Z.add Z.mul of_char 5 silent 7
    = Some (inr tt, e') /\
    window_ok e'.
Proof.
  assert (Hok : window_ok silent) by (split; cbn; lia).
  assert (Hfuel : _K1 (_filter silent) + _K2 (_filter silent) + 2 <= 5)
    by (cbn; lia).
  split; [exact Hok|]. split; [reflexivity|].
  split; [exact (@endless_dummy 2)|].
  destruct (@iterate_number_of_times_completes Z 0%Z Z.add Z.mul of_char
              5 7 silent Hok eq_refl (@endless_dummy 2) Hfuel)
    as (e' & Hrun & Hok' & _).
  exists e'. split; [exact Hrun|exact Hok'].
Defined.

Lemma remaining_recording : remaining (_s replay) 11.
Proof. split; [eexists; reflexivity|reflexivity]. Qed.

Lemma for_loop_output_count_witness :
  window_ok replay /\
  _estimate (_filter replay) = [] /\
  _size replay = 0%Z /\
  remaining (_s replay) 11 /\
  exists (us : list (vec Z)) (e' : DigitalEstimator Z),
    for_print 0%Z Z.add Z.mul of_char 8 11 replay = Some (inr us, e') /\
    length us = 10.
Proof.
  assert (Hok : window_ok replay) by (split; cbn; lia).
  assert (Hfuel : _K1 (_filter replay) + _K2 (_filter replay) + 2 <= 8)
    by (cbn; lia).
  assert (Hsteps : _K1 (_filter replay)
                   * ((_control_signal_in_buffer (_filter replay) + 11
                       - _K2 (_filter replay)) / _K1 (_filter replay))
                   < 11) by (cbn; lia).
  split; [exact Hok|]. split; [reflexivity|]. split; [reflexivity|].
  split; [exact remaining_recording|].
  exact (@for_loop_output_count Z 0%Z Z.add Z.mul of_char replay 11 8 11
           Hok eq_refl eq_refl remaining_recording Hfuel Hsteps).
Defined.

End Witness.
